(** * Aurora server core: a shallow embedding of src/ui/src-tauri/src/main.rs
      and src/ui/src-tauri/src/session.rs, with proofs of the catalog, delete,
      pull, log-buffer, prompt and session-store properties. *)

From Stdlib Require Import List String Ascii Bool Arith Lia ZArith NArith.
From Stdlib Require Import Permutation Sorted.
Import ListNotations.
Open Scope string_scope.
Open Scope list_scope.

(* ------------------------------------------------------------------------ *)
(** ** Common helpers *)

(** The newline character, as written ["\n"] in the Rust source. *)
Definition NL : string := String (Ascii.ascii_of_nat 10) EmptyString.

(** The last [n] elements of a list (the Rust [VecDeque] view used below). *)
Definition lastn {A} (n : nat) (l : list A) : list A :=
  skipn (List.length l - n) l.

(* ------------------------------------------------------------------------ *)
(** ** Log ring buffer ([struct LogBuffer], main.rs) *)

Module LogBus.

(** [entries: VecDeque<(u64, String)>] and [counter: u64].  The counter is
    kept as [N]: the [u64] wrap-around would need 2^64 pushes. *)
Record LogBuffer := mkLogBuffer {
  entries : list (N * string);
  counter : N
}.

(** [LogBuffer::new(capacity)]: empty deque, counter 0 (the capacity is only
    a pre-allocation hint; the bound 500 is hard-coded in [push]). *)
Definition new (capacity : nat) : LogBuffer := mkLogBuffer [] 0%N.

(** [fn push(&self, msg)]. *)
Definition push (b : LogBuffer) (msg : string) : LogBuffer :=
  let c := (counter b + 1)%N in
  let es := if Nat.leb 500 (List.length (entries b)) then tl (entries b) else entries b in
  mkLogBuffer (es ++ [(c, msg)]) c.

(** [fn tail(&self, limit)]: iterate backwards, take [limit], reverse. *)
Definition tail (b : LogBuffer) (limit : nat) : list string :=
  rev (firstn limit (rev (map snd (entries b)))).

(** Successive pushes, in order. *)
Definition push_all (b : LogBuffer) (msgs : list string) : LogBuffer :=
  fold_left push msgs b.

(** The messages numbered consecutively from [k]. *)
Fixpoint number_from (k : N) (msgs : list string) : list (N * string) :=
  match msgs with
  | [] => []
  | m :: r => (k, m) :: number_from (k + 1)%N r
  end.

End LogBus.

(* ------------------------------------------------------------------------ *)
(** ** Prompt assembly ([chat_handler], [chat_with_session_handler]) *)

Module Prompt.

(** [struct Message { role, content }]. *)
Record Message := mkMessage { role : string; content : string }.

(** [match m.role.as_str() { "system" => ..., "assistant" => ..., _ => ... }]. *)
Definition role_tag (r : string) : string :=
  if String.eqb r "system" then "[SYSTEM]"
  else if String.eqb r "assistant" then "[ASSISTANT]"
  else "[USER]".

(** [format!("{}\n{}\n", role, m.content)]. *)
Definition render (m : Message) : string :=
  role_tag (role m) ++ NL ++ content m ++ NL.

(** [messages.iter().map(render).collect::<String>() + "[ASSISTANT]\n"]. *)
Definition build_prompt (msgs : list Message) : string :=
  String.concat "" (map render msgs) ++ ("[ASSISTANT]" ++ NL).

(** Second definition, following the spec's words: each message serialized
    as ["[ROLE]\n<content>\n"], ROLE one of SYSTEM, ASSISTANT, USER (USER for
    any other role), then the trailing marker ["[ASSISTANT]\n"]. *)
Definition spec_role (r : string) : string :=
  if String.eqb r "system" then "SYSTEM"
  else if String.eqb r "assistant" then "ASSISTANT"
  else "USER".

Fixpoint spec_prompt (msgs : list Message) : string :=
  match msgs with
  | [] => "[ASSISTANT]" ++ NL
  | m :: r => "[" ++ spec_role (role m) ++ "]" ++ NL ++ content m ++ NL
              ++ spec_prompt r
  end.

End Prompt.

(* ------------------------------------------------------------------------ *)
(** ** Session store ([struct SessionStore], session.rs)

    The SQLite tables are lists of rows.  The connection is serialized by a
    mutex, so every method is one atomic step on the store.  Timestamps
    ([Utc::now().to_rfc3339()]) and the fresh [uuid::Uuid::new_v4()] are
    inputs of the step.  The schema's [FOREIGN KEY (session_id) REFERENCES
    sessions(id)] is enforced: the SQLite that rusqlite bundles is built with
    [SQLITE_DEFAULT_FOREIGN_KEYS=1], so an [INSERT INTO messages] naming no
    session fails with "FOREIGN KEY constraint failed" and is rolled back
    (the [AUTOINCREMENT] counter included).  [delete_session] removes the
    messages before the session, so the [ON DELETE CASCADE] has nothing left
    to do. *)

Module SessionStore.

(** [pub struct Session]. *)
Record Session := mkSession {
  s_id : string;
  s_created_at : string;
  s_updated_at : string;
  s_model : option string;
  s_title : option string;
  s_message_count : Z
}.

(** [pub struct SessionMessage]. *)
Record SessionMessage := mkMsg {
  m_id : Z;
  m_session_id : string;
  m_role : string;
  m_content : string;
  m_created_at : string;
  m_metadata : option string
}.

(** The tables [sessions] and [messages]; [next_rowid] is the
    [AUTOINCREMENT] counter of [messages]. *)
Record Store := mkStore {
  sessions : list Session;
  messages : list SessionMessage;
  next_rowid : Z
}.

Definition empty_store : Store := mkStore [] [] 1.

Definition set_count (s : Session) (c : Z) (now : string) : Session :=
  mkSession (s_id s) (s_created_at s) now (s_model s) (s_title s) c.

(** [create_session]: [INSERT INTO sessions ...]; the insert fails on the
    [PRIMARY KEY] when the id is taken. *)
Definition create_session (st : Store) (id : string) (model title : option string)
    (now : string) : option (Store * Session) :=
  if existsb (fun s => String.eqb (s_id s) id) (sessions st) then None
  else
    let s := mkSession id now now model title 0 in
    Some (mkStore (sessions st ++ [s]) (messages st) (next_rowid st), s).

(** [get_session]: [SELECT ... WHERE id = ?1] ([query_row] takes the first row). *)
Definition get_session (st : Store) (sid : string) : option Session :=
  find (fun s => String.eqb (s_id s) sid) (sessions st).

(** [delete_session]: delete the messages, then the session row; [Ok(deleted > 0)]. *)
Definition delete_session (st : Store) (sid : string) : Store * bool :=
  let deleted := existsb (fun s => String.eqb (s_id s) sid) (sessions st) in
  (mkStore (filter (fun s => negb (String.eqb (s_id s) sid)) (sessions st))
           (filter (fun m => negb (String.eqb (m_session_id m) sid)) (messages st))
           (next_rowid st), deleted).

(** [clear_all_sessions]. *)
Definition clear_all_sessions (st : Store) : Store :=
  mkStore [] [] (next_rowid st).

(** [add_message]: [INSERT INTO messages ...] (its [?] returns the foreign
    key error, [None], when no session has the id), [last_insert_rowid()],
    then [UPDATE sessions SET message_count = message_count + 1,
    updated_at = ?1 WHERE id = ?2]. *)
Definition add_message (st : Store) (sid role content : string)
    (metadata : option string) (now : string) : option (Store * SessionMessage) :=
  if existsb (fun s => String.eqb (s_id s) sid) (sessions st) then
    let id := next_rowid st in
    let m := mkMsg id sid role content now metadata in
    let upd s := if String.eqb (s_id s) sid
                 then set_count s (s_message_count s + 1) now else s in
    Some (mkStore (map upd (sessions st)) (messages st ++ [m]) (id + 1), m)
  else None.

(** [update_session_title]: [UPDATE sessions SET title = ?1, updated_at = ?2 WHERE id = ?3]. *)
Definition update_session_title (st : Store) (sid title now : string) : Store :=
  let upd s := if String.eqb (s_id s) sid
               then mkSession (s_id s) (s_created_at s) now (s_model s) (Some title)
                              (s_message_count s)
               else s in
  mkStore (map upd (sessions st)) (messages st) (next_rowid st).

(** [update_session_model]: [UPDATE sessions SET model = ?1, updated_at = ?2 WHERE id = ?3]. *)
Definition update_session_model (st : Store) (sid model now : string) : Store :=
  let upd s := if String.eqb (s_id s) sid
               then mkSession (s_id s) (s_created_at s) now (Some model) (s_title s)
                              (s_message_count s)
               else s in
  mkStore (map upd (sessions st)) (messages st) (next_rowid st).

(** [get_messages]: [SELECT ... WHERE session_id = ?1 ORDER BY created_at ASC],
    the ordering written as a stable insertion sort on the RFC 3339 text. *)
Fixpoint insert_by_created (m : SessionMessage) (l : list SessionMessage)
    : list SessionMessage :=
  match l with
  | [] => [m]
  | x :: r => match String.compare (m_created_at m) (m_created_at x) with
              | Lt => m :: x :: r
              | _ => x :: insert_by_created m r
              end
  end.

Fixpoint sort_by_created (l : list SessionMessage) : list SessionMessage :=
  match l with
  | [] => []
  | m :: r => insert_by_created m (sort_by_created r)
  end.

Definition get_messages (st : Store) (sid : string) : list SessionMessage :=
  sort_by_created (filter (fun m => String.eqb (m_session_id m) sid) (messages st)).

(** The store operations named in the invariant, as one step type. *)
Inductive Op :=
| OpCreate (id : string) (model title : option string) (now : string)
| OpAddMessage (sid role content : string) (metadata : option string) (now : string)
| OpDelete (sid : string)
| OpClearAll
| OpTitle (sid title now : string)
| OpModel (sid model now : string).

(** One operation; a failing [create_session] or [add_message] leaves the
    store as it was. *)
Definition exec (st : Store) (o : Op) : Store :=
  match o with
  | OpCreate id model title now =>
      match create_session st id model title now with
      | Some (st', _) => st'
      | None => st
      end
  | OpAddMessage sid role content meta now =>
      match add_message st sid role content meta now with
      | Some (st', _) => st'
      | None => st
      end
  | OpDelete sid => fst (delete_session st sid)
  | OpClearAll => clear_all_sessions st
  | OpTitle sid title now => update_session_title st sid title now
  | OpModel sid model now => update_session_model st sid model now
  end.

(** [uuid::Uuid::new_v4()] is globally unique: a freshly generated id names
    no row of either table. *)
Definition uuid_fresh (st : Store) (o : Op) : Prop :=
  match o with
  | OpCreate id _ _ _ => ~ In id (map m_session_id (messages st))
  | _ => True
  end.

(** Stores reachable from the empty database. *)
Inductive reachable : Store -> Prop :=
| reach_init : reachable empty_store
| reach_step st o : reachable st -> uuid_fresh st o -> reachable (exec st o).

(** Number of message rows of a session. *)
Definition count_rows (sid : string) (ms : list SessionMessage) : nat :=
  List.length (filter (fun m => String.eqb (m_session_id m) sid) ms).

(** The invariant of the data model: [message_count] is the row count. *)
Definition counts_consistent (st : Store) : Prop :=
  forall s, In s (sessions st) ->
    s_message_count s = Z.of_nat (count_rows (s_id s) (messages st)).

End SessionStore.

(* ------------------------------------------------------------------------ *)
(** ** Request handlers over the shared server state (main.rs)

    [AppState] keeps the config (behind a lock, persisted by [save_config]),
    the resident inference engine ([Option<Arc<InferenceEngine>>], known here
    by its [model_name]), the session store and the current-session pointer.
    The inference kernel is opaque: [load_ok] says whether [load_model]
    succeeds for a name, [engine_generate] is [engine.generate(prompt, _)]. *)

Module Server.
Import Prompt SessionStore.

Record Env := mkEnv {
  load_ok : string -> bool;
  engine_generate : string -> string -> option string;
  save_ok : bool;
  now : string;
  new_uuid : string
}.

Record State := mkState {
  cfg_default : string;          (* config.default_model in memory *)
  disk_default : string;         (* default_model in the persisted config file *)
  resident : option string;      (* model_name of the resident engine *)
  store : Store;
  current_session : option string
}.

Definition set_resident (st : State) (m : string) : State :=
  mkState (cfg_default st) (disk_default st) (Some m) (store st) (current_session st).

Definition set_store (st : State) (s : Store) : State :=
  mkState (cfg_default st) (disk_default st) (resident st) s (current_session st).

Definition set_current (st : State) (sid : string) : State :=
  mkState (cfg_default st) (disk_default st) (resident st) (store st) (Some sid).

(** [cfg.default_model = model_name.clone()] then [save_config(...)]. *)
Definition set_default (env : Env) (st : State) (m : string) : State :=
  mkState m (if save_ok env then m else disk_default st)
          (resident st) (store st) (current_session st).

Record ChatRequest := mkChatRequest {
  req_model : option string;
  req_messages : list Message
}.

Record GenerateRequest := mkGenerateRequest {
  gen_model : option string;
  gen_prompt : string
}.

Record ChatWithSessionRequest := mkSessionRequest {
  cs_model : option string;
  cs_messages : list Message;
  cs_session_id : option string;
  cs_persist : option bool
}.

(** Handler outcomes; [RespErr] carries the HTTP status code. *)
Inductive Resp :=
| RespChat (model output : string)
| RespGenerate (model output : string)
| RespSession (model output session_id : string) (message_count : Z)
| RespMessage (m : SessionMessage)
| RespMessages (ms : list SessionMessage)
| RespErr (code : N) (msg : string).

(** HTTP status of a response: [Ok(Json(..))] is axum's 200. *)
Definition status (r : Resp) : N :=
  match r with RespErr c _ => c | _ => 200%N end.

(** [body.model.unwrap_or_else(|| config.default_model.clone())]. *)
Definition pick_model (st : State) (m : option string) : string :=
  match m with Some x => x | None => cfg_default st end.

(** [inference.as_ref().map(|i| i.model_name != model_name).unwrap_or(true)]. *)
Definition needs_load (st : State) (model_name : string) : bool :=
  match resident st with
  | Some r => negb (String.eqb r model_name)
  | None => true
  end.

(** The "Load model if needed" block of [chat_handler] and
    [generate_handler]: [None] is the early [Err(NOT_FOUND)]. *)
Definition load_if_needed (env : Env) (st : State) (model_name : string)
    : option State :=
  if needs_load st model_name && negb (String.eqb model_name "") then
    if load_ok env model_name then
      let st1 := set_resident st model_name in
      if negb (String.eqb (cfg_default st1) model_name)
      then Some (set_default env st1 model_name)
      else Some st1
    else None
  else Some st.

(** [async fn chat_handler]: response, new state, prompt passed to the engine. *)
Definition chat_handler (env : Env) (st : State) (body : ChatRequest)
    : Resp * State * option string :=
  let model_name := pick_model st (req_model body) in
  match load_if_needed env st model_name with
  | None => (RespErr 404 ("Model '" ++ model_name ++ "' not found"), st, None)
  | Some st1 =>
      match resident st1 with
      | None => (RespErr 500 "No model loaded", st1, None)
      | Some eng =>
          let prompt := build_prompt (req_messages body) in
          match engine_generate env eng prompt with
          | None => (RespErr 500 "Inference error", st1, Some prompt)
          | Some out => (RespChat model_name out, st1, Some prompt)
          end
      end
  end.

(** [async fn generate_handler]. *)
Definition generate_handler (env : Env) (st : State) (body : GenerateRequest)
    : Resp * State * option string :=
  let model_name := pick_model st (gen_model body) in
  match load_if_needed env st model_name with
  | None => (RespErr 404 ("Model '" ++ model_name ++ "' not found"), st, None)
  | Some st1 =>
      match resident st1 with
      | None => (RespErr 500 "No model loaded", st1, None)
      | Some eng =>
          let prompt := gen_prompt body in
          match engine_generate env eng prompt with
          | None => (RespErr 500 "Inference error", st1, Some prompt)
          | Some out => (RespGenerate model_name out, st1, Some prompt)
          end
      end
  end.

(** [body.messages.last()]. *)
Fixpoint last_opt {A} (l : list A) : option A :=
  match l with
  | [] => None
  | [x] => Some x
  | _ :: r => last_opt r
  end.

(** The "Get or create session" block: [None] is an [INTERNAL_SERVER_ERROR]. *)
Definition resolve_session (env : Env) (st : State) (sid : option string)
    (model_name : string) : option (string * Store) :=
  let create :=
    match create_session (store st) (new_uuid env) (Some model_name) None (now env) with
    | Some (s', sess) => Some (s_id sess, s')
    | None => None
    end in
  match sid with
  | Some id =>
      match get_session (store st) id with
      | Some _ => Some (id, store st)
      | None => create
      end
  | None => create
  end.

(** A UTF-8 continuation byte, [0b10xx_xxxx]. *)
Definition is_utf8_cont (c : ascii) : bool :=
  let n := nat_of_ascii c in Nat.leb 128 n && Nat.ltb n 192.

(** [s.chars().take(n).collect::<String>()] on the UTF-8 bytes of a
    [String]: a character is a leading byte with the continuation bytes
    after it, and the [n+1]-th leading byte ends the prefix. *)
Fixpoint take_chars (n : nat) (s : string) : string :=
  match s with
  | EmptyString => EmptyString
  | String c r =>
      if is_utf8_cont c then String c (take_chars n r)
      else match n with
           | O => EmptyString
           | S k => String c (take_chars k r)
           end
  end.

(** [let _ = state.session_store.add_message(..)]: the error is dropped. *)
Definition add_message_ignored (s : Store) (sid role content : string)
    (metadata : option string) (now : string) : Store :=
  match add_message s sid role content metadata now with
  | Some (s', _) => s'
  | None => s
  end.

(** "Persist incoming user message if enabled", with the auto-title
    [last_msg.content.chars().take(50)]; the errors of [add_message] and
    [update_session_title] are dropped. *)
Definition persist_user (env : Env) (s : Store) (persist : bool) (sid : string)
    (msgs : list Message) : Store :=
  if persist then
    match last_opt msgs with
    | Some lm =>
        if String.eqb (role lm) "user" then
          let s1 := add_message_ignored s sid (role lm) (content lm) None (now env) in
          if Nat.eqb (List.length msgs) 1
          then update_session_title s1 sid (take_chars 50 (content lm)) (now env)
          else s1
        else s
    | None => s
    end
  else s.

(** [async fn chat_with_session_handler]. *)
Definition chat_with_session_handler (env : Env) (st : State)
    (body : ChatWithSessionRequest) : Resp * State * option string :=
  let model_name := pick_model st (cs_model body) in
  let persist := match cs_persist body with Some b => b | None => true end in
  match resolve_session env st (cs_session_id body) model_name with
  | None => (RespErr 500 "database error", st, None)
  | Some (sid, s1) =>
      let st1 := set_current (set_store st s1) sid in
      let loaded :=
        if needs_load st1 model_name && negb (String.eqb model_name "") then
          if load_ok env model_name then
            let st2 := set_resident st1 model_name in
            Some (set_store st2 (update_session_model (store st2) sid model_name (now env)))
          else None
        else Some st1 in
      match loaded with
      | None => (RespErr 404 ("Model '" ++ model_name ++ "' not found"), st1, None)
      | Some st2 =>
          let st3 := set_store st2 (persist_user env (store st2) persist sid
                                                  (cs_messages body)) in
          match resident st3 with
          | None => (RespErr 500 "No model loaded", st3, None)
          | Some eng =>
              let prompt := build_prompt (cs_messages body) in
              match engine_generate env eng prompt with
              | None => (RespErr 500 "Inference error", st3, Some prompt)
              | Some out =>
                  let st4 := if persist
                             then set_store st3 (add_message_ignored (store st3) sid
                                                    "assistant" out None (now env))
                             else st3 in
                  let count := match get_session (store st4) sid with
                               | Some s => s_message_count s
                               | None => 0%Z
                               end in
                  (RespSession model_name out sid count, st4, Some prompt)
              end
          end
      end
  end.

Record AddMessageRequest := mkAddMessageRequest {
  am_role : string;
  am_content : string;
  am_metadata : option string
}.

(** [async fn add_message_handler] (POST /api/sessions/:id/messages). *)
Definition add_message_handler (env : Env) (st : State) (sid : string)
    (body : AddMessageRequest) : Resp * State :=
  match add_message (store st) sid (am_role body) (am_content body)
                    (am_metadata body) (now env) with
  | Some (s', m) => (RespMessage m, set_store st s')
  | None => (RespErr 500 "Failed to add message: FOREIGN KEY constraint failed", st)
  end.

(** [async fn get_session_messages_handler] (GET /api/sessions/:id/messages). *)
Definition get_session_messages_handler (st : State) (sid : string) : Resp :=
  RespMessages (get_messages (store st) sid).

End Server.

(* ------------------------------------------------------------------------ *)
(** ** Pull worker: the download list of [download_model] (main.rs)

    Strings are byte strings of [ascii]; the regex classes [.] and [\d] are
    read on ASCII input. *)

Module Pull.

Definition is_digit (c : ascii) : bool :=
  let n := nat_of_ascii c in Nat.leb 48 n && Nat.leb n 57.

Definition newline : ascii := Ascii.ascii_of_nat 10.

(** The tail [(?P<total>\d+)\.gguf$]: a nonempty digit run, then [.gguf],
    then the end of the text; returns the digits. *)
Fixpoint digits_gguf (s : string) : option string :=
  match s with
  | EmptyString => None
  | String c r =>
      if is_digit c then
        if String.eqb r ".gguf" then Some (String c EmptyString)
        else option_map (String c) (digits_gguf r)
      else None
  end.

(** [-00001-of-(?P<total>\d+)\.gguf$] at the start of [s]. *)
Definition tail_match (s : string) : option string :=
  if String.prefix "-00001-of-" s
  then digits_gguf (substring 10 (String.length s - 10) s)
  else None.

(** [Regex::new(r"^(?P<prefix>.+)-00001-of-(?P<total>\d+)\.gguf$").captures]:
    the prefix is nonempty, has no newline ([.] excludes it) and is the
    longest one that lets the rest match (greedy [.+] with backtracking). *)
Fixpoint shard_caps (s : string) : option (string * string) :=
  match s with
  | EmptyString => None
  | String c r =>
      if Ascii.eqb c newline then None
      else
        match shard_caps r with
        | Some (p, t) => Some (String c p, t)
        | None =>
            match tail_match r with
            | Some t => Some (String c EmptyString, t)
            | None => None
            end
        end
  end.

(** [str::parse::<u32>()] on a string of ASCII digits. *)
Fixpoint digits_value (s : string) (acc : N) : option N :=
  match s with
  | EmptyString => Some acc
  | String c r =>
      if is_digit c
      then digits_value r (acc * 10 + N.of_nat (nat_of_ascii c - 48))%N
      else None
  end.

Definition parse_u32 (s : string) : option N :=
  match s with
  | EmptyString => None
  | _ => match digits_value s 0 with
         | Some v => if (v <=? 4294967295)%N then Some v else None
         | None => None
         end
  end.

(** Decimal digits of a [u32] (ten places, most significant first). *)
Fixpoint dec_digits (k : nat) (n : N) : list N :=
  match k with
  | O => []
  | S k' => dec_digits k' (n / 10)%N ++ [(n mod 10)%N]
  end.

Fixpoint strip_zeros (l : list N) : list N :=
  match l with
  | 0%N :: r => strip_zeros r
  | _ => l
  end.

Definition digit_char (d : N) : ascii := ascii_of_nat (48 + N.to_nat d).

Fixpoint string_of_digits (l : list N) : string :=
  match l with
  | [] => EmptyString
  | d :: r => String (digit_char d) (string_of_digits r)
  end.

(** [Display for u32]: decimal without leading zeros, ["0"] for zero. *)
Definition display_u32 (n : N) : string :=
  string_of_digits (match strip_zeros (dec_digits 10 n) with
                    | [] => [0%N]
                    | l => l
                    end).

Fixpoint zeros (k : nat) : string :=
  match k with
  | O => EmptyString
  | S k' => String "0" (zeros k')
  end.

(** [format!("{:05}", n)]: zero-padded to width 5. *)
Definition fmt05 (n : N) : string :=
  let s := display_u32 n in zeros (5 - String.length s) ++ s.

(** [format!("https://huggingface.co/{}/resolve/main/[{}/]{}", ...)]. *)
Definition hf_url (repo_id : string) (subfolder : option string) (file : string)
    : string :=
  match subfolder with
  | Some sf => "https://huggingface.co/" ++ repo_id ++ "/resolve/main/" ++ sf ++ "/" ++ file
  | None => "https://huggingface.co/" ++ repo_id ++ "/resolve/main/" ++ file
  end.

(** [(1..=total)] over [u32]. *)
Fixpoint range_from (k : N) (count : nat) : list N :=
  match count with
  | O => []
  | S c => k :: range_from (k + 1)%N c
  end.

Definition range1 (total : N) : list N := range_from 1 (N.to_nat total).

(** [format!("{}-{:05}-of-{:05}.gguf", prefix, i, total)]. *)
Definition shard_file (prefix : string) (i total : N) : string :=
  prefix ++ "-" ++ fmt05 i ++ "-of-" ++ fmt05 total ++ ".gguf".

(** [files_to_download: Vec<(String, String)>] of [download_model];
    [None] is the early return of [total.parse()?]. *)
Definition files_to_download (repo_id filename : string) (subfolder : option string)
    (direct_url : option string) : option (list (string * string)) :=
  match direct_url with
  | Some url => Some [(filename, url)]
  | None =>
      match shard_caps filename with
      | Some (prefix, total_s) =>
          match parse_u32 total_s with
          | None => None
          | Some total =>
              Some (map (fun i => let file := shard_file prefix i total in
                                  (file, hf_url repo_id subfolder file))
                        (range1 total))
          end
      | None => Some [(filename, hf_url repo_id subfolder filename)]
      end
  end.

End Pull.

(* ------------------------------------------------------------------------ *)
(** ** Files, the model registry and the catalog (main.rs)

    A path is its list of components.  The file system is the list of its
    existing entries (absolute, without [.], [..] or symbolic links), each a
    file or a directory; the list order is the order [read_dir] yields. *)

Module Catalog.

Definition Path := list string.

Inductive Kind := File | Dir.

Definition FS := list (Path * Kind).

Definition path_eqb (p q : Path) : bool :=
  (Nat.eqb (List.length p) (List.length q)) &&
  forallb (fun xy => String.eqb (fst xy) (snd xy)) (combine p q).

Definition kind_of (fs : FS) (p : Path) : option Kind :=
  option_map snd (find (fun e => path_eqb (fst e) p) fs).

(** [canonicalize] (realpath without links): walk the components from the
    root; [""] and ["."] stay, [".."] goes to the parent, a name must exist,
    and every component before the last must be a directory. *)
Fixpoint resolve_from (fs : FS) (acc : Path) (raw : Path) : option Path :=
  match raw with
  | [] => Some acc
  | c :: r =>
      let next :=
        if String.eqb c "" || String.eqb c "." then Some acc
        else if String.eqb c ".." then Some (removelast acc)
        else match kind_of fs (acc ++ [c]) with
             | Some _ => Some (acc ++ [c])
             | None => None
             end in
      match next with
      | None => None
      | Some acc' =>
          match r with
          | [] => Some acc'
          | _ => match acc' with
                 | [] => resolve_from fs acc' r
                 | _ => match kind_of fs acc' with
                        | Some Dir => resolve_from fs acc' r
                        | _ => None
                        end
                 end
          end
      end
  end.

Definition canonicalize (fs : FS) (raw : Path) : option Path := resolve_from fs [] raw.

Definition is_dir (fs : FS) (raw : Path) : bool :=
  match canonicalize fs raw with
  | Some [] => true
  | Some p => match kind_of fs p with Some Dir => true | _ => false end
  | None => false
  end.

Definition is_file (fs : FS) (raw : Path) : bool :=
  match canonicalize fs raw with
  | Some p => match kind_of fs p with Some File => true | _ => false end
  | None => false
  end.

Definition exists_path (fs : FS) (raw : Path) : bool :=
  match canonicalize fs raw with Some _ => true | None => false end.

(** [p] lies under [root] (or is [root]). *)
Definition under (root p : Path) : bool :=
  Nat.leb (List.length root) (List.length p) && path_eqb (firstn (List.length root) p) root.

(** [Path::starts_with]: compares [components()], which drop empty and
    ["."] parts. *)
Definition components (p : Path) : Path :=
  filter (fun c => negb (String.eqb c "" || String.eqb c ".")) p.

Definition starts_with (p root : Path) : bool := under (components root) (components p).

(** [fs::remove_dir_all]: a directory and everything below it. *)
Definition remove_dir_all (fs : FS) (raw : Path) : FS :=
  match canonicalize fs raw with
  | Some p => if is_dir fs p then filter (fun e => negb (under p (fst e))) fs else fs
  | None => fs
  end.

(** [fs::remove_file]: a file only. *)
Definition remove_file (fs : FS) (raw : Path) : FS :=
  match canonicalize fs raw with
  | Some p => if is_file fs p then filter (fun e => negb (path_eqb (fst e) p)) fs else fs
  | None => fs
  end.

(** [fs::read_dir]: the names of the entries directly inside a directory. *)
Definition read_dir (fs : FS) (raw : Path) : option (list string) :=
  if is_dir fs raw then
    match canonicalize fs raw with
    | Some p =>
        Some (flat_map (fun e => if Nat.eqb (List.length (fst e)) (S (List.length p))
                                    && under p (fst e)
                                 then [last (fst e) ""] else []) fs)
    | None => None
    end
  else None.

(** Split a string on ['/']. *)
Fixpoint split_slash_aux (cur : string) (s : string) : list string :=
  match s with
  | EmptyString => [cur]
  | String c r =>
      if Ascii.eqb c "/" then cur :: split_slash_aux EmptyString r
      else split_slash_aux (cur ++ String c EmptyString) r
  end.

Definition split_slash (s : string) : Path := split_slash_aux EmptyString s.

(** [PathBuf::from(s)], absolute or relative to the working directory [cwd]
    (which is where [canonicalize] resolves relative paths). *)
Definition parse_path (cwd : Path) (s : string) : Path :=
  match s with
  | String "/" r => split_slash r
  | _ => cwd ++ split_slash s
  end.

(** [Path::join(name)]: an absolute [name] replaces the base. *)
Definition join (base : Path) (name : string) : Path :=
  match name with
  | String "/" r => split_slash r
  | _ => base ++ split_slash name
  end.

(** [rsplit_file_at_dot]: split at the last ['.']. *)
Fixpoint rsplit_dot (s : string) : option (string * string) :=
  match s with
  | EmptyString => None
  | String c r =>
      match rsplit_dot r with
      | Some (b, a) => Some (String c b, a)
      | None => if Ascii.eqb c "." then Some (EmptyString, r) else None
      end
  end.

(** [Path::file_stem] and [Path::extension] of a file name. *)
Definition file_stem (f : string) : string :=
  if String.eqb f ".." then f
  else match rsplit_dot f with
       | Some (EmptyString, _) => f
       | Some (b, _) => b
       | None => f
       end.

Definition extension (f : string) : option string :=
  if String.eqb f ".." then None
  else match rsplit_dot f with
       | Some (EmptyString, _) => None
       | Some (_, a) => Some a
       | None => None
       end.

Definition is_gguf (f : string) : bool :=
  match extension f with Some e => String.eqb e "gguf" | None => false end.

(** [str::eq_ignore_ascii_case]. *)
Definition ascii_lower (c : ascii) : ascii :=
  let n := nat_of_ascii c in
  if Nat.leb 65 n && Nat.leb n 90 then ascii_of_nat (n + 32) else c.

Fixpoint lower (s : string) : string :=
  match s with
  | EmptyString => EmptyString
  | String c r => String (ascii_lower c) (lower r)
  end.

Definition eq_ignore_ascii_case (a b : string) : bool := String.eqb (lower a) (lower b).

(** [path.to_string_lossy()]. *)
Definition render (p : Path) : string :=
  match p with
  | [] => "/"
  | _ => String.concat "" (map (fun c : string => ("/" ++ c)%string) p)
  end.

(** [struct ModelEntry]: a row of [models.json]. *)
Record ModelEntry := mkEntry {
  e_name : string;
  e_path : string;
  e_repo_id : option string;
  e_filename : option string;
  e_source : option string
}.

(** The configuration fields the catalog reads: [config.models]
    (a [HashMap], listed in its iteration order) and [config.storage_dir]. *)
Record Config := mkConfig {
  models : list (string * string);
  storage_dir : Path
}.

(** What [save_registry] does to [models.json].  It runs
    [create_dir_all(parent)?] and then [std::fs::write(path, content)?];
    [fs::write] opens the file truncated before writing, so it can fail
    before the file is touched ([RegNotSaved]: parent or open fails) or
    after the truncation ([RegTruncated]: the write itself fails), when the
    file is left empty or cut short of its closing brace.  [load_registry]
    reads no valid JSON from such a file and returns the empty default. *)
Inductive RegistrySave := RegSaved | RegNotSaved | RegTruncated.

(** The disk as the handlers see it: the file tree, the registry file's rows,
    the process working directory, and what saving [models.json] does. *)
Record Disk := mkDisk {
  fs : FS;
  registry : list ModelEntry;
  cwd : Path;
  registry_save : RegistrySave
}.

(** [storage_dir.canonicalize().unwrap_or_else(|_| storage_dir.clone())]. *)
Definition storage_root (cfg : Config) (d : Disk) : Path :=
  match canonicalize (fs d) (storage_dir cfg) with
  | Some p => p
  | None => storage_dir cfg
  end.

(** The [.gguf] file directly under the root whose stem matches the name. *)
Definition gguf_candidate (d : Disk) (root : Path) (name : string) : option string :=
  match read_dir (fs d) root with
  | Some entries =>
      find (fun x => is_file (fs d) (root ++ [x]) && is_gguf x
                     && eq_ignore_ascii_case (file_stem x) name) entries
  | None => None
  end.

(** [async fn delete_model_handler]: HTTP status and the disk afterwards. *)
Definition delete_model_handler (cfg : Config) (d : Disk) (name : string) : N * Disk :=
  if existsb (fun kv => String.eqb (fst kv) name) (models cfg) then (400%N, d)
  else
    let root := storage_root cfg d in
    match find (fun m => String.eqb (e_name m) name) (registry d) with
    | Some entry =>
        let fs1 :=
          match canonicalize (fs d) (parse_path (cwd d) (e_path entry)) with
          | Some p =>
              if starts_with p root
              then (if is_dir (fs d) p then remove_dir_all (fs d) p
                    else remove_file (fs d) p)
              else fs d
          | None => fs d
          end in
        let reg1 := filter (fun m => negb (String.eqb (e_name m) name)) (registry d) in
        match registry_save d with
        | RegSaved => (200%N, mkDisk fs1 reg1 (cwd d) (registry_save d))
        | RegNotSaved => (500%N, mkDisk fs1 (registry d) (cwd d) (registry_save d))
        | RegTruncated => (500%N, mkDisk fs1 [] (cwd d) (registry_save d))
        end
    | None =>
        let candidate_dir := join root name in
        if is_dir (fs d) candidate_dir
        then (200%N, mkDisk (remove_dir_all (fs d) candidate_dir) (registry d) (cwd d)
                            (registry_save d))
        else
          match gguf_candidate d root name with
          | Some x => (200%N, mkDisk (remove_file (fs d) (root ++ [x])) (registry d) (cwd d)
                                     (registry_save d))
          | None => (404%N, d)
          end
    end.

(** [struct ModelInfo]. *)
Record ModelInfo := mkInfo {
  mi_name : string;
  mi_path : string;
  mi_source : string
}.

(** The [models] vector and the [seen] set of [models_handler]. *)
Definition Acc := (list ModelInfo * list string)%type.

Definition mem (x : string) (l : list string) : bool := existsb (String.eqb x) l.

(** [if !seen.contains(&name) { models.push(..); seen.insert(name) }]. *)
Definition push_unseen (a : Acc) (mi : ModelInfo) : Acc :=
  if mem (mi_name mi) (snd a) then a
  else (fst a ++ [mi], snd a ++ [mi_name mi]).

(** The config loop pushes without consulting [seen]. *)
Definition push_config (a : Acc) (kv : string * string) : Acc :=
  (fst a ++ [mkInfo (fst kv) (snd kv) "config"], snd a ++ [fst kv]).

Definition registry_info (e : ModelEntry) : ModelInfo :=
  mkInfo (e_name e) (e_path e)
         (match e_source e with Some s => s | None => "registry" end).

(** One entry of [read_dir(&storage_dir)]: a directory contributes the first
    [.gguf] among its entries ([break] after it, seen or not); a file with
    extension [gguf] contributes its stem. *)
Definition discover_entry (fs : FS) (storage : Path) (a : Acc) (x : string) : Acc :=
  let path := storage ++ [x] in
  if is_dir fs path then
    match read_dir fs path with
    | Some subentries =>
        match find is_gguf subentries with
        | Some y => push_unseen a (mkInfo x (render (path ++ [y])) "discovered")
        | None => a
        end
    | None => a
    end
  else if is_gguf x then push_unseen a (mkInfo (file_stem x) (render path) "discovered")
  else a.

(** [async fn models_handler]: the [models] of the response. *)
Definition models_handler (cfg : Config) (d : Disk) : list ModelInfo :=
  let a1 := fold_left push_config (models cfg) ([], []) in
  let a2 := fold_left push_unseen (map registry_info (registry d)) a1 in
  let a3 :=
    if exists_path (fs d) (storage_dir cfg) then
      match read_dir (fs d) (storage_dir cfg) with
      | Some entries => fold_left (discover_entry (fs d) (storage_dir cfg)) entries a2
      | None => a2
      end
    else a2 in
  fst a3.

(** Second definition, following the spec's words: the candidates of the
    three sources, in order, and the first occurrence of each name. *)
Definition discover_candidates (fs : FS) (storage : Path) (x : string) : list ModelInfo :=
  let path := storage ++ [x] in
  if is_dir fs path then
    match read_dir fs path with
    | Some sub => match find is_gguf sub with
                  | Some y => [mkInfo x (render (path ++ [y])) "discovered"]
                  | None => []
                  end
    | None => []
    end
  else if is_gguf x then [mkInfo (file_stem x) (render path) "discovered"]
  else [].

Definition discovered (fs : FS) (storage : Path) : list ModelInfo :=
  if exists_path fs storage then
    match read_dir fs storage with
    | Some entries => flat_map (discover_candidates fs storage) entries
    | None => []
    end
  else [].

Fixpoint first_occurrences (seen : list string) (l : list ModelInfo) : list ModelInfo :=
  match l with
  | [] => []
  | mi :: r =>
      if mem (mi_name mi) seen then first_occurrences seen r
      else mi :: first_occurrences (mi_name mi :: seen) r
  end.

Definition spec_catalog (cfg : Config) (d : Disk) : list ModelInfo :=
  first_occurrences []
    (map (fun kv => mkInfo (fst kv) (snd kv) "config") (models cfg)
     ++ map registry_info (registry d)
     ++ discovered (fs d) (storage_dir cfg)).

End Catalog.

(* ------------------------------------------------------------------------ *)
(** ** Session queries and episodic memory ([impl SessionStore], session.rs)

    [ORDER BY <column> DESC] on the RFC 3339 text: SQLite's BINARY collation
    compares the bytes, which is [String.compare].  Rows with equal keys come
    in an order SQLite leaves open; the insertion sort below fixes one, and
    no theorem of this development depends on it. *)

Module SessionQueries.
Import SessionStore.

(** [pub struct EpisodicMemory]. *)
Record EpisodicMemory := mkMemory {
  em_id : Z;
  em_event_type : string;
  em_summary : string;
  em_session_id : option string;
  em_created_at : string;
  em_metadata : option string
}.

(** The table [episodic_memory]; [next_mem_id] is its [AUTOINCREMENT]
    counter. *)
Record MemTable := mkMemTable {
  memories : list EpisodicMemory;
  next_mem_id : Z
}.

Definition empty_memories : MemTable := mkMemTable [] 1.

(** [limit as i64] for a 64-bit [usize]. *)
Definition usize_as_i64 (n : N) : Z :=
  let z := Z.of_N (n mod 2 ^ 64) in
  if (z <? 2 ^ 63)%Z then z else (z - 2 ^ 64)%Z.

(** SQLite's [LIMIT ?n]: a negative bound means no bound. *)
Definition sql_limit {A} (n : Z) (l : list A) : list A :=
  if (n <? 0)%Z then l else firstn (Z.to_nat n) l.

(** [ORDER BY key DESC]. *)
Fixpoint insert_desc {A} (key : A -> string) (x : A) (l : list A) : list A :=
  match l with
  | [] => [x]
  | y :: r => match String.compare (key x) (key y) with
              | Gt => x :: y :: r
              | _ => y :: insert_desc key x r
              end
  end.

Fixpoint sort_desc {A} (key : A -> string) (l : list A) : list A :=
  match l with
  | [] => []
  | x :: r => insert_desc key x (sort_desc key r)
  end.

(** [list_sessions]: [SELECT ... FROM sessions ORDER BY updated_at DESC LIMIT ?1]. *)
Definition list_sessions (st : Store) (limit : N) : list Session :=
  sql_limit (usize_as_i64 limit) (sort_desc s_updated_at (sessions st)).

(** [get_recent_messages]: [WHERE session_id = ?1 ORDER BY created_at DESC
    LIMIT ?2], then [messages.reverse()]. *)
Definition get_recent_messages (st : Store) (sid : string) (limit : N)
    : list SessionMessage :=
  rev (sql_limit (usize_as_i64 limit)
         (sort_desc m_created_at
            (filter (fun m => String.eqb (m_session_id m) sid) (messages st)))).

(** [record_memory]: [INSERT INTO episodic_memory ...]; the id is
    [last_insert_rowid()]. *)
Definition record_memory (mt : MemTable) (event_type summary : string)
    (session_id metadata : option string) (now : string) : MemTable * EpisodicMemory :=
  let id := next_mem_id mt in
  let m := mkMemory id event_type summary session_id now metadata in
  (mkMemTable (memories mt ++ [m]) (id + 1), m).

(** [get_recent_memories]: [ORDER BY created_at DESC LIMIT ?1]. *)
Definition get_recent_memories (mt : MemTable) (limit : N) : list EpisodicMemory :=
  sql_limit (usize_as_i64 limit) (sort_desc em_created_at (memories mt)).

(** [get_memories_by_type]: [WHERE event_type = ?1 ORDER BY created_at DESC LIMIT ?2]. *)
Definition get_memories_by_type (mt : MemTable) (event_type : string) (limit : N)
    : list EpisodicMemory :=
  sql_limit (usize_as_i64 limit)
    (sort_desc em_created_at
       (filter (fun m => String.eqb (em_event_type m) event_type) (memories mt))).

(** [clear_memories]: [DELETE FROM episodic_memory] (the [AUTOINCREMENT]
    counter in [sqlite_sequence] stays). *)
Definition clear_memories (mt : MemTable) : MemTable := mkMemTable [] (next_mem_id mt).

(** [pub struct SessionContext]. *)
Record SessionContext := mkContext {
  ctx_session : Session;
  ctx_messages : list SessionMessage;
  ctx_recent_memory : list EpisodicMemory
}.

(** [get_session_context]. *)
Definition get_session_context (st : Store) (mt : MemTable) (sid : string)
    (max_messages max_memories : N) : option SessionContext :=
  match get_session st sid with
  | Some s => Some (mkContext s (get_recent_messages st sid max_messages)
                              (get_recent_memories mt max_memories))
  | None => None
  end.

(** The writes to [episodic_memory] ([POST /api/memory] and
    [POST /api/memory/clear]), as one step type. *)
Inductive MemOp :=
| MRecord (event_type summary : string) (session_id metadata : option string) (now : string)
| MClear.

Definition mem_exec (mt : MemTable) (o : MemOp) : MemTable :=
  match o with
  | MRecord event_type summary session_id metadata now =>
      fst (record_memory mt event_type summary session_id metadata now)
  | MClear => clear_memories mt
  end.

End SessionQueries.

(* ------------------------------------------------------------------------ *)
(** ** Session and memory handlers (main.rs)

    The handlers read and write the session store, the current-session
    pointer and the episodic memory.  A request reads the clock once
    ([now env]); the store's methods do not fail except where the schema
    makes them (the [PRIMARY KEY] of [sessions]). *)

Module SessionApi.
Import SessionStore SessionQueries Server.

Definition clear_current (st : State) : State :=
  mkState (cfg_default st) (disk_default st) (resident st) (store st) None.

(** Response bodies of the session and memory routes; [ApiErr] carries the
    HTTP status. *)
Inductive ApiResp :=
| ApiSession (s : Session)
| ApiList (sessions : list Session) (current : option string)
| ApiContext (c : SessionContext)
| ApiDeleted (sid : string)
| ApiCleared
| ApiMemories (ms : list EpisodicMemory)
| ApiErr (code : N).

Definition api_status (r : ApiResp) : N :=
  match r with ApiErr c => c | _ => 200%N end.

(** [async fn create_session_handler]. *)
Definition create_session_handler (env : Env) (st : State) (mt : MemTable)
    (model title : option string) : ApiResp * State * MemTable :=
  match create_session (store st) (new_uuid env) model title (now env) with
  | Some (s', sess) =>
      let st1 := set_current (set_store st s') (s_id sess) in
      let shown := match s_title sess with Some t => t | None => "Untitled" end in
      let mt1 := fst (record_memory mt "session_created"
                        ("New session started: " ++ shown)
                        (Some (s_id sess)) None (now env)) in
      (ApiSession sess, st1, mt1)
  | None => (ApiErr 500, st, mt)
  end.

(** [async fn list_sessions_handler]. *)
Definition list_sessions_handler (st : State) : ApiResp :=
  ApiList (list_sessions (store st) 50) (current_session st).

(** [async fn get_session_handler]. *)
Definition get_session_handler (st : State) (mt : MemTable) (sid : string) : ApiResp :=
  match get_session_context (store st) mt sid 50 10 with
  | Some c => ApiContext c
  | None => ApiErr 404
  end.

(** [async fn delete_session_handler]: the current-session pointer is
    cleared first, then the rows are deleted. *)
Definition delete_session_handler (env : Env) (st : State) (mt : MemTable)
    (sid : string) : ApiResp * State * MemTable :=
  let st1 := match current_session st with
             | Some c => if String.eqb c sid then clear_current st else st
             | None => st
             end in
  let '(s', deleted) := delete_session (store st1) sid in
  let st2 := set_store st1 s' in
  if deleted then
    let mt1 := fst (record_memory mt "session_deleted"
                      ("Session cleared/deleted: " ++ sid) None None (now env)) in
    (ApiDeleted sid, st2, mt1)
  else (ApiErr 404, st2, mt).

(** [async fn clear_all_sessions_handler]. *)
Definition clear_all_sessions_handler (env : Env) (st : State) (mt : MemTable)
    : ApiResp * State * MemTable :=
  let st1 := clear_current st in
  let st2 := set_store st1 (clear_all_sessions (store st1)) in
  let mt1 := fst (record_memory mt "all_sessions_cleared"
                    "All sessions cleared - full context reset" None None (now env)) in
  (ApiCleared, st2, mt1).

(** [usize::from_str]: an optional [+], then one or more ASCII digits, the
    value below 2^64. *)
Definition parse_usize (s : string) : option N :=
  let digits := match s with
                | String "+" r => r
                | _ => s
                end in
  match digits with
  | EmptyString => None
  | _ => match Pull.digits_value digits 0 with
         | Some v => if (v <? 2 ^ 64)%N then Some v else None
         | None => None
         end
  end.

(** [async fn get_memories_handler]: the query parameters [limit] and
    [type], as the [HashMap] lookups yield them. *)
Definition get_memories_handler (mt : MemTable) (limit_param type_param : option string)
    : ApiResp :=
  let limit := match limit_param with
               | Some s => match parse_usize s with Some n => n | None => 20%N end
               | None => 20%N
               end in
  match type_param with
  | Some t => ApiMemories (get_memories_by_type mt t limit)
  | None => ApiMemories (get_recent_memories mt limit)
  end.

End SessionApi.

(* ------------------------------------------------------------------------ *)
(** ** Custom models ([custom_models.json], main.rs)

    Text is the sequence of its Unicode scalar values.  The handlers read
    only [name] and [base_model]; the other fields of [CustomModelConfig]
    ([system_prompt], [template], [parameters], [description]) are carried
    as one value of type [Rest].  The file is modelled by what
    [load_custom_models] makes of it: [None] when it is missing, unreadable
    or does not parse, else the registry it parses to ([serde_json] reads
    back what it wrote).  [save_custom_models] ends in [fs::write], which
    truncates the file before writing: a failed save leaves the file as it
    was (the directory or the file could not be opened) or cut short, which
    no longer parses. *)

Module CustomModels.

Definition ustring := list N.

(** [char::is_whitespace]: the Unicode [White_Space] property. *)
Definition is_whitespace (c : N) : bool :=
  ((9 <=? c) && (c <=? 13))%N || (c =? 32)%N || (c =? 133)%N || (c =? 160)%N
  || (c =? 5760)%N || ((8192 <=? c) && (c <=? 8202))%N || (c =? 8232)%N
  || (c =? 8233)%N || (c =? 8239)%N || (c =? 8287)%N || (c =? 12288)%N.

Fixpoint trim_start (s : ustring) : ustring :=
  match s with
  | [] => []
  | c :: r => if is_whitespace c then trim_start r else s
  end.

(** [str::trim]. *)
Definition trim (s : ustring) : ustring := rev (trim_start (rev (trim_start s))).

Definition is_empty (s : ustring) : bool :=
  match s with [] => true | _ => false end.

(** [String]'s [==]. *)
Definition ueqb (a b : ustring) : bool :=
  if list_eq_dec N.eq_dec a b then true else false.

(** The outcome of [save_custom_models]. *)
Inductive WriteResult := Written | NotWritten | Truncated.

Section Registry.
Variable Rest : Type.

(** [struct CustomModelConfig]. *)
Record CustomModelConfig := mkCustom {
  cm_name : ustring;
  cm_base_model : ustring;
  cm_rest : Rest
}.

(** [fn load_custom_models]. *)
Definition load_custom_models (file : option (list CustomModelConfig))
    : list CustomModelConfig :=
  match file with Some l => l | None => [] end.

(** [save_custom_models]: whether it returned [Ok], and the file afterwards. *)
Definition save_custom_models (w : WriteResult) (old : option (list CustomModelConfig))
    (reg : list CustomModelConfig) : bool * option (list CustomModelConfig) :=
  match w with
  | Written => (true, Some reg)
  | NotWritten => (false, old)
  | Truncated => (false, None)
  end.

(** [registry.models.retain(|m| m.name != name)]. *)
Definition retain_other (name : ustring) (l : list CustomModelConfig)
    : list CustomModelConfig :=
  filter (fun m => negb (ueqb (cm_name m) name)) l.

(** [async fn create_custom_model_handler]: HTTP status and the file
    afterwards. *)
Definition create_custom_model_handler (w : WriteResult)
    (file : option (list CustomModelConfig)) (body : CustomModelConfig)
    : N * option (list CustomModelConfig) :=
  if is_empty (trim (cm_name body)) then (400%N, file)
  else if is_empty (trim (cm_base_model body)) then (400%N, file)
  else
    let reg := load_custom_models file in
    let reg1 := if existsb (fun m => ueqb (cm_name m) (cm_name body)) reg
                then retain_other (cm_name body) reg else reg in
    let '(ok, file') := save_custom_models w file (reg1 ++ [body]) in
    (if ok then 200%N else 500%N, file').

(** [async fn get_custom_model_handler]: [None] is the 404. *)
Definition get_custom_model_handler (file : option (list CustomModelConfig))
    (name : ustring) : option CustomModelConfig :=
  find (fun m => ueqb (cm_name m) name) (load_custom_models file).

(** [async fn delete_custom_model_handler]. *)
Definition delete_custom_model_handler (w : WriteResult)
    (file : option (list CustomModelConfig)) (name : ustring)
    : N * option (list CustomModelConfig) :=
  let reg := load_custom_models file in
  let reg1 := retain_other name reg in
  if Nat.eqb (List.length reg1) (List.length reg) then (404%N, file)
  else let '(ok, file') := save_custom_models w file reg1 in
       (if ok then 200%N else 500%N, file').

(** The requests on [/api/custom-models], for the invariant below. *)
Inductive CustomOp :=
| CCreate (w : WriteResult) (body : CustomModelConfig)
| CDelete (w : WriteResult) (name : ustring).

Definition custom_exec (file : option (list CustomModelConfig)) (o : CustomOp)
    : option (list CustomModelConfig) :=
  match o with
  | CCreate w body => snd (create_custom_model_handler w file body)
  | CDelete w name => snd (delete_custom_model_handler w file name)
  end.

End Registry.

Arguments mkCustom {Rest}.
Arguments cm_name {Rest}.
Arguments cm_base_model {Rest}.
Arguments cm_rest {Rest}.
Arguments load_custom_models {Rest}.
Arguments save_custom_models {Rest}.
Arguments retain_other {Rest}.
Arguments create_custom_model_handler {Rest}.
Arguments get_custom_model_handler {Rest}.
Arguments delete_custom_model_handler {Rest}.
Arguments CCreate {Rest}.
Arguments CDelete {Rest}.
Arguments custom_exec {Rest}.

End CustomModels.

(* ------------------------------------------------------------------------ *)
(** ** Locating a model file and registering a pulled model (main.rs) *)

Module ModelFiles.
Import Catalog.

(** [Path::file_name]: the last component, unless it is [..]. *)
Definition file_name (p : Path) : option string :=
  match rev (components p) with
  | c :: _ => if String.eqb c ".." then None else Some c
  | [] => None
  end.

(** [p.extension().map(|e| e == "gguf").unwrap_or(false)]. *)
Definition has_gguf_ext (p : Path) : bool :=
  match file_name p with Some f => is_gguf f | None => false end.

(** [str::contains]. *)
Definition contains (pat s : string) : bool :=
  match String.index 0 pat s with Some _ => true | None => false end.

(** [ggufs.sort()]: the entries of one directory, ordered by their names. *)
Fixpoint insert_name (x : string) (l : list string) : list string :=
  match l with
  | [] => [x]
  | y :: r => if String.leb x y then x :: y :: r else y :: insert_name x r
  end.

Fixpoint sort_names (l : list string) : list string :=
  match l with
  | [] => []
  | x :: r => insert_name x (sort_names r)
  end.

(** The [candidate_dir] block: [Some (Some x)] returns [candidate_dir/x],
    [Some None] goes on to the [.gguf] file, [None] is the [?] on
    [read_dir]. *)
Definition pick_in_dir (fs : FS) (candidate_dir : Path) : option (option string) :=
  if is_dir fs candidate_dir then
    match read_dir fs candidate_dir with
    | Some entries =>
        let ggufs := sort_names (filter is_gguf entries) in
        match find (contains "-00001-of-") ggufs with
        | Some x => Some (Some x)
        | None => match ggufs with
                  | x :: _ => Some (Some x)
                  | [] => Some None
                  end
        end
    | None => None
    end
  else Some None.

(** [fn find_model_file(storage_dir, model_name)]: [None] is the [Err]. *)
Definition find_model_file (fs : FS) (cwd : Path) (storage_dir : Path)
    (model_name : string) : option Path :=
  let direct_path := parse_path cwd model_name in
  if exists_path fs direct_path && has_gguf_ext (split_slash model_name)
  then Some direct_path
  else
    let candidate_dir := join storage_dir model_name in
    match pick_in_dir fs candidate_dir with
    | None => None
    | Some (Some x) => Some (candidate_dir ++ [x])
    | Some None =>
        let direct := join storage_dir (model_name ++ ".gguf") in
        if exists_path fs direct then Some direct else None
    end.

(** The [Ok(model_path)] arm of [pull_handler]: replace the registry rows
    of [name] by one row for the downloaded file; a failed [save_registry]
    is only logged, and leaves [models.json] as the save left it.
    [download_model] returns [storage_dir/name/filename]. *)
Definition register_pulled (cfg : Config) (d : Disk) (name repo_id filename : string)
    (source : option string) : Disk :=
  let model_path := join (join (storage_dir cfg) name) filename in
  let entry := mkEntry name (render model_path) (Some repo_id) (Some filename)
                       (match source with Some s => Some s | None => Some "pulled" end) in
  let reg := filter (fun m => negb (String.eqb (e_name m) name)) (registry d) ++ [entry] in
  match registry_save d with
  | RegSaved => mkDisk (fs d) reg (cwd d) (registry_save d)
  | RegNotSaved => d
  | RegTruncated => mkDisk (fs d) [] (cwd d) (registry_save d)
  end.

End ModelFiles.

(* ======================================================================== *)
(** * Concrete inputs

    Small states, requests and disks on which the handlers are run below. *)

Module Fixtures.
Import Prompt SessionStore Server.
Local Open Scope string_scope.

(** An engine that loads every model and always answers. *)
Definition env_ok : Env :=
  mkEnv (fun _ => true) (fun _ _ => Some "hello") true "2024-05-01T10:00:00Z" "uuid-1".

(** An engine that cannot load any model. *)
Definition env_noload : Env :=
  mkEnv (fun _ => false) (fun _ _ => Some "hello") true "2024-05-01T10:00:00Z" "uuid-1".

Definition state_with (default : string) (res : option string) : State :=
  mkState default default res empty_store None.

Definition two_messages : list Message :=
  [mkMessage "system" "Be brief."; mkMessage "user" "Hi"].

Definition chat_b : ChatRequest := mkChatRequest (Some "b") two_messages.

Definition session_req (model : string) (sid : string) : ChatWithSessionRequest :=
  mkSessionRequest (Some model) [mkMessage "user" "Hi"] (Some sid) None.

Definition note : AddMessageRequest := mkAddMessageRequest "user" "orphan" None.

Import Catalog.

(** A disk with [/data/models] as storage, a registry row [evil] pointing at
    [/etc/passwd], and a working directory [/data]. *)
Definition fs_evil : FS :=
  [(["data"], Dir); (["data"; "models"], Dir); (["etc"], Dir); (["etc"; "passwd"], File)].

Definition cfg_data : Config := mkConfig [] ["data"; "models"].

Definition evil_entry : ModelEntry := mkEntry "evil" "/etc/passwd" None None None.

Definition disk_evil : Disk := mkDisk fs_evil [evil_entry] ["data"] RegSaved.

(** Storage [/data/models] with a sibling file [/data/other] and an empty
    registry. *)
Definition fs_sibling : FS :=
  [(["data"], Dir); (["data"; "models"], Dir); (["data"; "models"; "m.gguf"], File);
   (["data"; "other"], File)].

Definition disk_sibling : Disk := mkDisk fs_sibling [] ["data"] RegSaved.

(** A catalog with a name in config and registry, a name in registry and
    on disk, and a discovered directory. *)
Definition fs_catalog : FS :=
  [(["s"], Dir); (["s"; "m1.gguf"], File); (["s"; "m2.gguf"], File);
   (["s"; "d"], Dir); (["s"; "d"; "w.gguf"], File)].

Definition cfg_catalog : Config := mkConfig [("m1", "/cfg/m1.gguf")] ["s"].

Definition disk_catalog : Disk :=
  mkDisk fs_catalog
         [mkEntry "m1" "/reg/m1.gguf" None None None;
          mkEntry "m2" "/s/m2.gguf" None None (Some "pull")] [] RegSaved.

End Fixtures.

(** Inputs for the store, memory, custom-model and model-file properties. *)

Module ExtraFixtures.
Import SessionStore SessionQueries Catalog CustomModels.
Local Open Scope string_scope.

(** One memory, recorded at the start of 2024. *)
Definition mem_one : MemTable :=
  fst (record_memory empty_memories "note" "first" None None "2024-01-01T00:00:00Z").

(** A store with the session [s1], then with one message in it. *)
Definition store_one : Store := exec empty_store (OpCreate "s1" None (Some "t") "t0").

(** The row that the [add_message] of [store_two] inserts. *)
Definition msg_one : SessionMessage := mkMsg 1 "s1" "user" "hi" "t1" None.

Definition store_two : Store := exec store_one (OpAddMessage "s1" "user" "hi" None "t1").

(** Storage [/s] holding the directory [b] with two shards and a README;
    the registry has an older row for [b], the config declares [a]. *)
Definition fs_shards : FS :=
  [(["s"], Dir); (["s"; "b"], Dir); (["s"; "b"; "b-00002-of-00002.gguf"], File);
   (["s"; "b"; "b-00001-of-00002.gguf"], File); (["s"; "b"; "README"], File)].

Definition cfg_shards : Config := mkConfig [("a", "/x/a.gguf")] ["s"].

Definition disk_shards : Disk :=
  mkDisk fs_shards [mkEntry "b" "/old/b.gguf" None None None] ["w"] RegSaved.

(** A custom-model file with the entries [a] and [b] (names as code points). *)
Definition custom_two : option (list (CustomModelConfig unit)) :=
  Some [mkCustom [97%N] [109%N] tt; mkCustom [98%N] [109%N] tt].

End ExtraFixtures.

(* ======================================================================== *)
(** * Proofs *)

(* ------------------------------------------------------------------------ *)
(** ** Log ring buffer *)

Module LogBusProofs.
Import LogBus.

Lemma length_lastn {A} (n : nat) (l : list A) :
  List.length (lastn n l) = Nat.min n (List.length l).
Proof. unfold lastn. rewrite length_skipn. lia. Qed.

Lemma lastn_snoc {A} (k : nat) (l : list A) (x : A) :
  0 < k ->
  lastn k (l ++ [x]) =
  (if Nat.leb k (List.length (lastn k l)) then tl (lastn k l) else lastn k l) ++ [x].
Proof.
  intros Hk. rewrite length_lastn. unfold lastn.
  rewrite length_app; simpl.
  destruct (Nat.leb_spec k (Nat.min k (List.length l))) as [H|H].
  - assert (Hle : k <= List.length l) by lia.
    rewrite skipn_app.
    replace (List.length l + 1 - k - List.length l) with 0 by lia. simpl.
    f_equal.
    replace (List.length l + 1 - k) with (S (List.length l - k)) by lia.
    clear. generalize (List.length l - k) as m. intros m.
    revert m; induction l as [|y l IH]; intros [|m]; try reflexivity.
    rewrite !skipn_cons. apply IH.
  - assert (Hgt : List.length l < k) by lia.
    replace (List.length l + 1 - k) with 0 by lia.
    replace (List.length l - k) with 0 by lia. reflexivity.
Qed.

Lemma number_from_snoc (k : N) (msgs : list string) (m : string) :
  number_from k (msgs ++ [m]) =
  number_from k msgs ++ [((k + N.of_nat (List.length msgs))%N, m)].
Proof.
  revert k; induction msgs as [|x r IH]; intros k; simpl.
  - rewrite N.add_0_r. reflexivity.
  - rewrite IH.
    replace (k + N.pos (Pos.of_succ_nat (List.length r)))%N
      with (k + 1 + N.of_nat (List.length r))%N; [reflexivity|].
    change (N.pos (Pos.of_succ_nat (List.length r))) with (N.of_nat (S (List.length r))).
    rewrite Nat2N.inj_succ. lia.
Qed.

Lemma push_all_snoc (b : LogBuffer) (msgs : list string) (m : string) :
  push_all b (msgs ++ [m]) = push (push_all b msgs) m.
Proof. unfold push_all. rewrite fold_left_app. reflexivity. Qed.

(** The state after [N] pushes into a fresh buffer. *)
Lemma push_all_new (msgs : list string) :
  push_all (new 500) msgs =
  mkLogBuffer (lastn 500 (number_from 1 msgs)) (N.of_nat (List.length msgs)).
Proof.
  induction msgs as [|m msgs IH] using rev_ind.
  - reflexivity.
  - rewrite push_all_snoc, IH. unfold push. cbn [entries counter].
    rewrite number_from_snoc, lastn_snoc by lia.
    rewrite length_app. cbn [List.length].
    f_equal.
    + f_equal. f_equal. f_equal. lia.
    + rewrite Nat2N.inj_add. reflexivity.
Qed.

Lemma tail_lastn (b : LogBuffer) (n : nat) :
  tail b n = lastn n (map snd (entries b)).
Proof.
  unfold tail, lastn. rewrite firstn_rev, rev_involutive. reflexivity.
Qed.

Lemma length_number_from (k : N) (msgs : list string) :
  List.length (number_from k msgs) = List.length msgs.
Proof. revert k; induction msgs; intros k; simpl; auto. Qed.

Lemma map_snd_number_from (k : N) (msgs : list string) :
  map snd (number_from k msgs) = msgs.
Proof. revert k; induction msgs; intros k; simpl; f_equal; auto. Qed.

Lemma map_lastn {A B} (f : A -> B) (n : nat) (l : list A) :
  map f (lastn n l) = lastn n (map f l).
Proof. unfold lastn. rewrite length_map. symmetry. apply skipn_map. Qed.

(** C6.  The log ring buffer never holds more than 500 entries; after [N]
    pushes into the buffer created by [LogBuffer::new(500)] its entries are
    the last [min(N, 500)] pushed messages in insertion order, numbered
    [1, 2, ..., N] by the counter; and [tail(n)] returns the last
    [min(n, length)] entries in chronological order. *)
Theorem log_buffer_last_500 (msgs : list string) (n : nat) :
  let b := push_all (new 500) msgs in
  List.length (entries b) <= 500 /\
  List.length (entries b) = Nat.min (List.length msgs) 500 /\
  entries b = lastn 500 (number_from 1 msgs) /\
  map snd (entries b) = lastn 500 msgs /\
  counter b = N.of_nat (List.length msgs) /\
  tail b n = lastn n (map snd (entries b)) /\
  List.length (tail b n) = Nat.min n (List.length (entries b)).
Proof.
  cbv zeta. rewrite push_all_new; simpl.
  rewrite length_lastn, length_number_from.
  repeat split; try lia.
  - rewrite map_lastn, map_snd_number_from. reflexivity.
  - apply tail_lastn.
  - rewrite tail_lastn, length_lastn, length_map. cbn [entries].
    rewrite length_lastn, length_number_from. reflexivity.
Qed.

End LogBusProofs.

(* ------------------------------------------------------------------------ *)
(** ** Prompt assembly *)

Module PromptProofs.
Import Prompt Server.
Local Open Scope string_scope.

Lemma sappend_assoc (a b c : string) : (a ++ b) ++ c = a ++ (b ++ c).
Proof. induction a as [|x a IH]; simpl; [reflexivity|now rewrite IH]. Qed.

Lemma concat_empty_cons (x : string) (l : list string) :
  String.concat "" (x :: l) = x ++ String.concat "" l.
Proof.
  destruct l as [|y l]; simpl.
  - induction x as [|c x IH]; simpl; [reflexivity|now rewrite <- IH].
  - reflexivity.
Qed.

Lemma role_tag_spec (r : string) : role_tag r = "[" ++ spec_role r ++ "]".
Proof.
  unfold role_tag, spec_role.
  destruct (String.eqb r "system"); [reflexivity|].
  destruct (String.eqb r "assistant"); reflexivity.
Qed.

(** The code's assembly agrees with the spec's serialization. *)
Lemma build_prompt_spec (msgs : list Message) :
  build_prompt msgs = spec_prompt msgs.
Proof.
  unfold build_prompt.
  induction msgs as [|m r IH]; [reflexivity|].
  cbn [map spec_prompt]. rewrite concat_empty_cons, sappend_assoc, IH.
  unfold render. rewrite role_tag_spec.
  rewrite !sappend_assoc. reflexivity.
Qed.

(** C7.  The prompt [/api/chat] hands to the engine is the concatenation of
    ["[ROLE]\n<content>\n"] over the messages (SYSTEM for "system",
    ASSISTANT for "assistant", USER otherwise) followed by ["[ASSISTANT]\n"];
    [/api/generate] hands over the request's prompt unchanged; and two chat
    requests with the same messages hand over byte-identical prompts. *)
Theorem chat_prompt_assembly :
  (forall env st body r st' p,
      chat_handler env st body = (r, st', Some p) ->
      p = spec_prompt (req_messages body)) /\
  (forall env st body r st' p,
      generate_handler env st body = (r, st', Some p) ->
      p = gen_prompt body) /\
  (forall env1 env2 st1 st2 b1 b2 r1 r2 st1' st2' p1 p2,
      req_messages b1 = req_messages b2 ->
      chat_handler env1 st1 b1 = (r1, st1', Some p1) ->
      chat_handler env2 st2 b2 = (r2, st2', Some p2) ->
      p1 = p2).
Proof.
  assert (Hchat : forall env st body r st' p,
             chat_handler env st body = (r, st', Some p) ->
             p = spec_prompt (req_messages body)).
  { intros env st body r st' p H. unfold chat_handler in H.
    destruct (load_if_needed env st _) as [st1|]; [|discriminate].
    destruct (resident st1) as [eng|]; [|discriminate].
    rewrite <- build_prompt_spec.
    destruct (engine_generate env eng _); inversion H; reflexivity. }
  split; [exact Hchat|split].
  - intros env st body r st' p H. unfold generate_handler in H.
    destruct (load_if_needed env st _) as [st1|]; [|discriminate].
    destruct (resident st1) as [eng|]; [|discriminate].
    destruct (engine_generate env eng _); inversion H; reflexivity.
  - intros env1 env2 st1 st2 b1 b2 r1 r2 st1' st2' p1 p2 Hm H1 H2.
    apply Hchat in H1. apply Hchat in H2. subst. now rewrite Hm.
Qed.

End PromptProofs.

(* ------------------------------------------------------------------------ *)
(** ** Session store *)

Module SessionProofs.
Import SessionStore.

Lemma count_rows_app (sid : string) (l1 l2 : list SessionMessage) :
  count_rows sid (l1 ++ l2) = count_rows sid l1 + count_rows sid l2.
Proof. unfold count_rows. rewrite filter_app, length_app. reflexivity. Qed.

Lemma count_rows_msg (sid : string) (m : SessionMessage) :
  count_rows sid [m] = if String.eqb (m_session_id m) sid then 1 else 0.
Proof. unfold count_rows; simpl. destruct (String.eqb _ _); reflexivity. Qed.

Lemma count_rows_filter_other (sid x : string) (ms : list SessionMessage) :
  x <> sid ->
  count_rows x (filter (fun m => negb (String.eqb (m_session_id m) sid)) ms) =
  count_rows x ms.
Proof.
  intros Hne. unfold count_rows.
  induction ms as [|m r IH]; simpl; [reflexivity|].
  destruct (String.eqb_spec (m_session_id m) sid) as [E|E]; simpl.
  - destruct (String.eqb_spec (m_session_id m) x) as [E'|E']; [congruence|exact IH].
  - destruct (String.eqb (m_session_id m) x); simpl; [now rewrite IH|exact IH].
Qed.

Lemma not_in_count_rows (sid : string) (ms : list SessionMessage) :
  ~ In sid (map m_session_id ms) -> count_rows sid ms = 0.
Proof.
  intros H. unfold count_rows.
  induction ms as [|m r IH]; simpl in *; [reflexivity|].
  destruct (String.eqb_spec (m_session_id m) sid) as [E|E]; [tauto|].
  apply IH. tauto.
Qed.

Lemma exec_preserves (st : Store) (o : Op) :
  counts_consistent st -> uuid_fresh st o -> counts_consistent (exec st o).
Proof.
  unfold counts_consistent. intros Hinv Hfresh.
  destruct o as [id model title now|sid role content meta now|sid| |sid title now|sid model now];
    simpl in *.
  - (* create_session *)
    unfold create_session.
    destruct (existsb _ (sessions st)); [exact Hinv|]. simpl.
    intros s Hs. apply in_app_or in Hs as [Hs|[Hs|[]]]; [now apply Hinv|].
    subst s. simpl. rewrite not_in_count_rows by exact Hfresh. reflexivity.
  - (* add_message *)
    try unfold add_message.
    destruct (existsb (fun s => String.eqb (s_id s) sid) (sessions st)); [simpl|exact Hinv].
    intros s Hs. apply in_map_iff in Hs as [s0 [Hs0 Hin]].
    rewrite count_rows_app, count_rows_msg. simpl.
    destruct (String.eqb_spec (s_id s0) sid) as [E|E]; subst s; simpl.
    + rewrite E, String.eqb_refl, Hinv by exact Hin. rewrite E. lia.
    + destruct (String.eqb_spec sid (s_id s0)) as [E'|E']; [congruence|].
      rewrite Hinv by exact Hin. lia.
  - (* delete_session *)
    intros s Hs. apply filter_In in Hs as [Hin Hne].
    destruct (String.eqb_spec (s_id s) sid) as [E|E]; [discriminate|].
    rewrite count_rows_filter_other by exact E. now apply Hinv.
  - (* clear_all_sessions *)
    intros s [].
  - (* update_session_title *)
    intros s Hs. apply in_map_iff in Hs as [s0 [Hs0 Hin]].
    destruct (String.eqb (s_id s0) sid); subst s; simpl; now apply Hinv.
  - (* update_session_model *)
    intros s Hs. apply in_map_iff in Hs as [s0 [Hs0 Hin]].
    destruct (String.eqb (s_id s0) sid); subst s; simpl; now apply Hinv.
Qed.

Lemma find_map_upd (sid : string) (f : Session -> Session) (l : list Session) (s : Session) :
  (forall x, s_id (f x) = s_id x) ->
  find (fun x => String.eqb (s_id x) sid) l = Some s ->
  find (fun x => String.eqb (s_id x) sid)
       (map (fun x => if String.eqb (s_id x) sid then f x else x) l) = Some (f s).
Proof.
  intros Hid. induction l as [|x r IH]; simpl; [discriminate|].
  destruct (String.eqb (s_id x) sid) eqn:E; simpl.
  - intros H. inversion H; subst. rewrite Hid, E. reflexivity.
  - rewrite E. exact IH.
Qed.

(** C4.  In every store reachable from the empty database by
    [create_session] (with a fresh uuid), [add_message], [delete_session],
    [clear_all_sessions], [update_session_title] and [update_session_model],
    every session's [message_count] equals the number of message rows with
    its id; and [add_message] on an existing session succeeds, and a
    [get_session] right after it reads the count incremented by one. *)
Theorem message_count_consistent (st : Store) :
  reachable st ->
  counts_consistent st /\
  (forall sid role content meta now s,
      get_session st sid = Some s ->
      exists st' m s', add_message st sid role content meta now = Some (st', m) /\
                 get_session st' sid = Some s' /\
                 s_message_count s' = (s_message_count s + 1)%Z /\
                 s_message_count s' = Z.of_nat (count_rows sid (messages st'))).
Proof.
  intros Hr.
  assert (Hinv : counts_consistent st).
  { induction Hr as [|st o Hr IH Hf].
    - intros s [].
    - now apply exec_preserves. }
  split; [exact Hinv|].
  intros sid role content meta now s Hget.
  assert (Hex : existsb (fun x => String.eqb (s_id x) sid) (sessions st) = true).
  { unfold get_session in Hget. apply find_some in Hget as [Hin Heq].
    apply existsb_exists. exists s. split; assumption. }
  pose proof (exec_preserves st (OpAddMessage sid role content meta now) Hinv I) as Hinv'.
  cbn [exec] in Hinv'. unfold add_message in Hinv' |- *. rewrite Hex in Hinv' |- *.
  cbv beta iota zeta in Hinv' |- *.
  eexists _, _, (set_count s (s_message_count s + 1) now). split; [reflexivity|].
  assert (Hg : get_session (mkStore (map (fun x => if String.eqb (s_id x) sid
                                                   then set_count x (s_message_count x + 1) now
                                                   else x) (sessions st))
                                    (messages st ++ [mkMsg (next_rowid st) sid role content now meta])
                                    (next_rowid st + 1)) sid =
               Some (set_count s (s_message_count s + 1) now)).
  { unfold get_session; simpl.
    exact (find_map_upd sid (fun x => set_count x (s_message_count x + 1) now)
             (sessions st) s (fun x => eq_refl) Hget). }
  split; [exact Hg|split; [reflexivity|]].
  unfold get_session in Hg. apply find_some in Hg as [Hin Heq].
  apply String.eqb_eq in Heq. pose proof (Hinv' _ Hin) as H. rewrite Heq in H. exact H.
Qed.

End SessionProofs.

(* ------------------------------------------------------------------------ *)
(** ** Messages posted to a session that does not exist *)

Module DanglingProofs.
Import SessionStore Server.

Lemma ids_map_upd (sid : string) (f : Session -> Session) (l : list Session) :
  (forall x, s_id (f x) = s_id x) ->
  map s_id (map (fun s => if String.eqb (s_id s) sid then f s else s) l) = map s_id l.
Proof.
  intros Hf. induction l as [|x r IH]; simpl; [reflexivity|].
  rewrite IH. destruct (String.eqb (s_id x) sid); [now rewrite Hf|reflexivity].
Qed.

(** With the foreign key enforced, every message row names an existing
    session in a reachable store. *)
Lemma messages_have_sessions (st : Store) :
  reachable st ->
  forall m, In m (messages st) -> In (m_session_id m) (map s_id (sessions st)).
Proof.
  induction 1 as [|st o Hr IH Hf]; [intros m []|].
  destruct o as [id model title now|sid role content meta now|sid| |sid title now|sid model now];
    cbn [exec]; intros m Hm.
  - destruct (create_session st id model title now) as [[st' x]|] eqn:E; [|exact (IH m Hm)].
    unfold create_session in E. destruct (existsb _ _); [discriminate|].
    injection E as <- _. cbn in Hm |- *. rewrite map_app. apply in_or_app. left.
    exact (IH m Hm).
  - unfold add_message in Hm |- *.
    destruct (existsb (fun s => String.eqb (s_id s) sid) (sessions st)) eqn:Ex;
      [|exact (IH m Hm)].
    cbn in Hm |- *. rewrite ids_map_upd by reflexivity.
    apply in_app_or in Hm as [Hm|[<-|[]]]; [exact (IH m Hm)|].
    cbn. apply existsb_exists in Ex as [s [Hs Es]]. apply String.eqb_eq in Es.
    rewrite <- Es. apply in_map, Hs.
  - cbn in Hm |- *. apply filter_In in Hm as [Hm Hne].
    specialize (IH m Hm). apply in_map_iff in IH as [s [Es Hs]].
    apply in_map_iff. exists s. split; [exact Es|]. apply filter_In.
    split; [exact Hs|]. rewrite Es. exact Hne.
  - destruct Hm.
  - cbn in Hm |- *. rewrite ids_map_upd by reflexivity. exact (IH m Hm).
  - cbn in Hm |- *. rewrite ids_map_upd by reflexivity. exact (IH m Hm).
Qed.

(** C10 (as corrected).  POST /api/sessions/:id/messages for an id with no
    session row fails: the foreign key rejects the [INSERT], the answer is
    HTTP 500 "Failed to add message: FOREIGN KEY constraint failed", and the
    state is left as it was (no message row, no session changed).  In a
    store reachable from the empty database, GET /api/sessions/:id/messages
    for that id returns no message. *)
Theorem add_message_to_missing_session (env : Env) (st : State) (sid : string)
    (body : AddMessageRequest) :
  get_session (store st) sid = None ->
  add_message_handler env st sid body =
    (RespErr 500 "Failed to add message: FOREIGN KEY constraint failed", st) /\
  status (fst (add_message_handler env st sid body)) = 500%N /\
  (reachable (store st) -> get_session_messages_handler st sid = RespMessages []).
Proof.
  intros Hnone.
  assert (Hex : existsb (fun s => String.eqb (s_id s) sid) (sessions (store st)) = false).
  { apply Bool.not_true_iff_false. intros Hex. apply existsb_exists in Hex as [s [Hs Es]].
    unfold get_session in Hnone. pose proof (find_none _ _ Hnone s Hs) as H.
    congruence. }
  assert (Hh : add_message_handler env st sid body =
               (RespErr 500 "Failed to add message: FOREIGN KEY constraint failed", st)).
  { unfold add_message_handler, add_message. rewrite Hex. reflexivity. }
  split; [exact Hh|split; [rewrite Hh; reflexivity|]].
  intros Hr. unfold get_session_messages_handler, get_messages.
  assert (Hf : forall l, (forall m, In m l -> In m (messages (store st))) ->
               filter (fun m => String.eqb (m_session_id m) sid) l = []).
  { induction l as [|m r IH]; intros Hl; [reflexivity|]. cbn.
    destruct (String.eqb_spec (m_session_id m) sid) as [E|E].
    - exfalso. pose proof (messages_have_sessions _ Hr m (Hl m (or_introl eq_refl))) as H.
      rewrite E in H. apply in_map_iff in H as [s [Es Hs]].
      unfold get_session in Hnone. pose proof (find_none _ _ Hnone s Hs) as H.
      cbn beta in H. rewrite Es, String.eqb_refl in H. discriminate.
    - apply IH. intros x Hx. apply Hl. right. exact Hx. }
  rewrite (Hf _ (fun m H => H)). reflexivity.
Qed.

End DanglingProofs.

(* ------------------------------------------------------------------------ *)
(** ** Default-model update and session resolution of the chat handlers *)

Module HandlerProofs.
Import Prompt SessionStore Server.

Lemma chat_handler_state (env : Env) (st : State) (body : ChatRequest) :
  let '(_, st', _) := chat_handler env st body in
  match load_if_needed env st (pick_model st (req_model body)) with
  | Some st1 => st' = st1
  | None => st' = st
  end.
Proof.
  unfold chat_handler.
  destruct (load_if_needed env st _) as [st1|]; [|reflexivity].
  destruct (resident st1) as [eng|]; [|reflexivity].
  destruct (engine_generate env eng _); reflexivity.
Qed.

(** C8 (as corrected).  A chat request naming [m] sets [default_model] to
    [m] (saving the config when the value changes and the save succeeds)
    exactly when it loads a new engine: no resident engine or one for
    another model, [m] non-empty, and the load succeeds.  Otherwise, in
    particular when the resident engine already serves [m], the in-memory
    and persisted defaults are left as they were. *)
Theorem chat_default_model_update (env : Env) (st : State) (body : ChatRequest) :
  let m := pick_model st (req_model body) in
  let '(_, st', _) := chat_handler env st body in
  (needs_load st m && negb (String.eqb m "") && load_ok env m = true ->
     cfg_default st' = m /\ resident st' = Some m /\
     (cfg_default st <> m -> save_ok env = true -> disk_default st' = m)) /\
  (needs_load st m && negb (String.eqb m "") && load_ok env m = false ->
     cfg_default st' = cfg_default st /\ disk_default st' = disk_default st).
Proof.
  cbv zeta. pose proof (chat_handler_state env st body) as Hst.
  destruct (chat_handler env st body) as [[r st'] p].
  unfold load_if_needed in Hst.
  set (m := pick_model st (req_model body)) in *.
  destruct (needs_load st m && negb (String.eqb m "")) eqn:E1; simpl.
  - destruct (load_ok env m) eqn:E2; simpl.
    + split; [|discriminate]. intros _.
      destruct (String.eqb_spec (cfg_default (set_resident st m)) m) as [E|E];
        simpl in Hst; subst st'; simpl in *.
      * repeat split; auto. intros Hne. congruence.
      * repeat split; auto. intros _ Hs. now rewrite Hs.
    + split; [discriminate|]. intros _. now subst st'.
  - split; [discriminate|]. intros _. now subst st'.
Qed.

Lemma create_session_absent (s : Store) (id : string) model title now :
  get_session s id = None ->
  create_session s id model title now =
  Some (mkStore (sessions s ++ [mkSession id now now model title 0]) (messages s)
                (next_rowid s), mkSession id now now model title 0).
Proof.
  unfold get_session, create_session. intros H.
  destruct (existsb (fun x => String.eqb (s_id x) id) (sessions s)) eqn:E; [|reflexivity].
  apply existsb_exists in E as [x [Hx Ex]].
  destruct (find (fun x => String.eqb (s_id x) id) (sessions s)) eqn:F; [discriminate|].
  rewrite (find_none _ _ F x Hx) in Ex. discriminate.
Qed.

Lemma ids_add_message s sid role content meta now :
  map s_id (sessions (add_message_ignored s sid role content meta now)) = map s_id (sessions s).
Proof.
  unfold add_message_ignored, add_message.
  destruct (existsb _ _); [apply DanglingProofs.ids_map_upd; reflexivity|reflexivity].
Qed.

Lemma ids_update_title s sid title now :
  map s_id (sessions (update_session_title s sid title now)) = map s_id (sessions s).
Proof. apply DanglingProofs.ids_map_upd. reflexivity. Qed.

Lemma ids_update_model s sid model now :
  map s_id (sessions (update_session_model s sid model now)) = map s_id (sessions s).
Proof. apply DanglingProofs.ids_map_upd. reflexivity. Qed.

Lemma ids_persist_user env s persist sid msgs :
  map s_id (sessions (persist_user env s persist sid msgs)) = map s_id (sessions s).
Proof.
  unfold persist_user.
  destruct persist; [|reflexivity].
  destruct (last_opt msgs) as [lm|]; [|reflexivity].
  destruct (String.eqb (role lm) "user"); [|reflexivity].
  destruct (Nat.eqb _ 1); rewrite ?ids_update_title; apply ids_add_message.
Qed.

(** The request's outcome once the session is resolved to [sid] in [s1]. *)
Lemma chat_with_session_after_resolve (env : Env) (st : State)
    (body : ChatWithSessionRequest) (sid : string) (s1 : Store) :
  let m := pick_model st (cs_model body) in
  resolve_session env st (cs_session_id body) m = Some (sid, s1) ->
  let '(r, st', _) := chat_with_session_handler env st body in
  current_session st' = Some sid /\
  map s_id (sessions (store st')) = map s_id (sessions s1) /\
  (forall code msg, r = RespErr code msg ->
     (code = 404%N /\ needs_load st m = true /\ m <> "" /\ load_ok env m = false)
     \/ code = 500%N) /\
  (forall mo out sid' c, r = RespSession mo out sid' c -> sid' = sid).
Proof.
  cbv zeta. intros Hres.
  unfold chat_with_session_handler. rewrite Hres.
  set (m := pick_model st (cs_model body)).
  set (persist := match cs_persist body with Some b => b | None => true end).
  set (st1 := set_current (set_store st s1) sid).
  assert (Hn : needs_load st1 m = needs_load st m) by reflexivity.
  destruct (needs_load st1 m && negb (String.eqb m "")) eqn:E1.
  - destruct (load_ok env m) eqn:E2.
    + cbn [resident set_resident set_store store].
      set (st2 := set_store (set_resident st1 m)
                    (update_session_model (store (set_resident st1 m)) sid m (now env))).
      set (st3 := set_store st2 (persist_user env (store st2) persist sid (cs_messages body))).
      assert (H3 : map s_id (sessions (store st3)) = map s_id (sessions s1)).
      { unfold st3, st2; cbn [store set_store set_resident].
        rewrite ids_persist_user, ids_update_model. reflexivity. }
      change (resident st3) with (Some m). cbv iota beta.
      destruct (engine_generate env m (build_prompt (cs_messages body))) as [out|].
      * refine (conj _ (conj _ (conj _ _))).
        -- destruct persist; reflexivity.
        -- destruct persist; cbn [store set_store]; rewrite ?ids_add_message; exact H3.
        -- intros code msg Hr; discriminate.
        -- intros mo o sid' c Hr. now inversion Hr.
      * refine (conj _ (conj _ (conj _ _))); [reflexivity|exact H3| |intros; discriminate].
        intros code msg Hr. inversion Hr. now right.
    + cbv iota beta. refine (conj _ (conj _ (conj _ _))); [reflexivity|reflexivity| |intros; discriminate].
      intros code msg Hr. inversion Hr; subst. left.
      apply andb_true_iff in E1 as [E1 E3]. apply negb_true_iff in E3.
      apply String.eqb_neq in E3. auto.
  - set (st3 := set_store st1 (persist_user env (store st1) persist sid (cs_messages body))).
    assert (H3 : map s_id (sessions (store st3)) = map s_id (sessions s1)).
    { unfold st3, st1; cbn [store set_store set_current].
      rewrite ids_persist_user. reflexivity. }
    cbv iota beta. fold st3.
    destruct (resident st3) as [eng|].
    + destruct (engine_generate env eng (build_prompt (cs_messages body))) as [out|].
      * refine (conj _ (conj _ (conj _ _))).
        -- destruct persist; reflexivity.
        -- destruct persist; cbn [store set_store]; rewrite ?ids_add_message; exact H3.
        -- intros code msg Hr; discriminate.
        -- intros mo o sid' c Hr. now inversion Hr.
      * refine (conj _ (conj _ (conj _ _))); [reflexivity|exact H3| |intros; discriminate].
        intros code msg Hr. inversion Hr. now right.
    + refine (conj _ (conj _ (conj _ _))); [reflexivity|exact H3| |intros; discriminate].
      intros code msg Hr. inversion Hr. now right.
Qed.

(** C9 (as corrected).  POST /api/chat/session with a [session_id] that
    names no session never fails because of that id: the handler creates a
    new session under the freshly generated uuid (globally unique, hence
    distinct from the supplied id) and makes it current.  The request can
    still fail: with 404 when the requested model has to be loaded and
    cannot be, or with 500 when there is no engine or inference fails; when
    it succeeds, the response's [session_id] is the fresh id. *)
Theorem chat_session_unknown_id (env : Env) (st : State)
    (body : ChatWithSessionRequest) (id : string) :
  cs_session_id body = Some id ->
  get_session (store st) id = None ->
  get_session (store st) (new_uuid env) = None ->
  new_uuid env <> id ->
  let m := pick_model st (cs_model body) in
  let '(r, st', _) := chat_with_session_handler env st body in
  current_session st' = Some (new_uuid env) /\
  In (new_uuid env) (map s_id (sessions (store st'))) /\
  (forall code msg, r = RespErr code msg ->
     (code = 404%N /\ needs_load st m = true /\ m <> "" /\ load_ok env m = false)
     \/ code = 500%N) /\
  (forall mo out sid c, r = RespSession mo out sid c -> sid = new_uuid env /\ sid <> id).
Proof.
  intros Hid Hnone Hfresh Hne. cbv zeta.
  set (m := pick_model st (cs_model body)).
  set (s1 := mkStore (sessions (store st) ++
                        [mkSession (new_uuid env) (now env) (now env) (Some m) None 0])
                     (messages (store st)) (next_rowid (store st))).
  assert (Hres : resolve_session env st (cs_session_id body) m = Some (new_uuid env, s1)).
  { unfold resolve_session. rewrite Hid, Hnone.
    rewrite (create_session_absent (store st) (new_uuid env) (Some m) None (now env) Hfresh).
    reflexivity. }
  pose proof (chat_with_session_after_resolve env st body (new_uuid env) s1 Hres) as H.
  cbv zeta in H.
  destruct (chat_with_session_handler env st body) as [[r st'] p].
  destruct H as [Hcur [Hids [Herr Hok]]].
  refine (conj Hcur (conj _ (conj Herr _))).
  - rewrite Hids. unfold s1; cbn [sessions]. rewrite map_app.
    apply in_or_app. right. now left.
  - intros mo out sid c Hr. apply Hok in Hr. subst sid. split; [reflexivity|exact Hne].
Qed.

End HandlerProofs.

(* ------------------------------------------------------------------------ *)
(** ** Shard expansion *)

Module PullProofs.
Import Pull.
Local Open Scope string_scope.

Definition digit_chars : list ascii := map (fun k => ascii_of_nat (48 + k)) (seq 0 10).

Lemma is_digit_in (c : ascii) : is_digit c = true -> In c digit_chars.
Proof.
  destruct c as [b0 b1 b2 b3 b4 b5 b6 b7].
  destruct b0, b1, b2, b3, b4, b5, b6, b7; vm_compute;
    first [intros _; tauto | discriminate].
Qed.

Definition five (a b c d e : ascii) : string :=
  String a (String b (String c (String d (String e EmptyString)))).

(** Every string of five ASCII digits. *)
Definition all5 : list string :=
  flat_map (fun a => flat_map (fun b => flat_map (fun c => flat_map (fun d =>
    map (fun e => five a b c d e) digit_chars) digit_chars) digit_chars) digit_chars)
    digit_chars.

Lemma in_all5 (s : string) :
  String.length s = 5 -> forallb is_digit (list_ascii_of_string s) = true -> In s all5.
Proof.
  intros Hl H.
  destruct s as [|a [|b [|c [|d [|e [|x r]]]]]]; cbn [String.length] in Hl; try lia.
  cbn [list_ascii_of_string forallb] in H.
  repeat (apply andb_prop in H as [? H]).
  unfold all5. apply in_flat_map; exists a; split; [now apply is_digit_in|].
  apply in_flat_map; exists b; split; [now apply is_digit_in|].
  apply in_flat_map; exists c; split; [now apply is_digit_in|].
  apply in_flat_map; exists d; split; [now apply is_digit_in|].
  apply in_map_iff; exists e; split; [reflexivity|now apply is_digit_in].
Qed.

(** [{:05}] reproduces every five-digit total it parsed. *)
Definition total_roundtrip (s : string) : bool :=
  match parse_u32 s with
  | Some t => N.ltb t 100000 && String.eqb (fmt05 t) s
  | None => false
  end.

Lemma all5_roundtrip : forallb total_roundtrip all5 = true.
Proof. vm_compute. reflexivity. Qed.

(** Every index below 100000 is printed on five digits that parse back. *)
Definition index_roundtrip (i : N) : bool :=
  Nat.eqb (String.length (fmt05 i)) 5 &&
  match parse_u32 (fmt05 i) with Some j => N.eqb j i | None => false end.

Lemma indices_roundtrip : forallb index_roundtrip (range1 99999) = true.
Proof. vm_compute. reflexivity. Qed.

Lemma sapp_assoc (a b c : string) : (a ++ b) ++ c = a ++ (b ++ c).
Proof. induction a as [|x a IH]; simpl; [reflexivity|now rewrite IH]. Qed.

Lemma substring_all (s : string) : substring 0 (String.length s) s = s.
Proof. induction s as [|c s IH]; simpl; [reflexivity|now rewrite IH]. Qed.

Lemma prefix_sound (p s : string) :
  String.prefix p s = true ->
  s = p ++ substring (String.length p) (String.length s - String.length p) s.
Proof.
  revert s; induction p as [|a p IH]; intros s H.
  - simpl. rewrite Nat.sub_0_r, substring_all. reflexivity.
  - destruct s as [|b s]; simpl in H; [discriminate|].
    destruct (ascii_dec a b) as [E|E]; [subst b|discriminate].
    simpl. f_equal. now apply IH.
Qed.

Lemma digits_gguf_sound (s t : string) :
  digits_gguf s = Some t ->
  s = t ++ ".gguf" /\ t <> EmptyString /\
  forallb is_digit (list_ascii_of_string t) = true.
Proof.
  revert t; induction s as [|c r IH]; intros t H; simpl in H; [discriminate|].
  destruct (is_digit c) eqn:Ec; [|discriminate].
  destruct (String.eqb_spec r ".gguf") as [E|E].
  - inversion H; subst. simpl. rewrite Ec. repeat split; discriminate.
  - destruct (digits_gguf r) as [t'|] eqn:Er; [|discriminate].
    simpl in H. inversion H; subst.
    destruct (IH t' eq_refl) as [-> [_ Hd]].
    simpl. rewrite Ec, Hd. repeat split; discriminate.
Qed.

Lemma tail_match_sound (s t : string) :
  tail_match s = Some t ->
  s = "-00001-of-" ++ t ++ ".gguf" /\ t <> EmptyString /\
  forallb is_digit (list_ascii_of_string t) = true.
Proof.
  unfold tail_match. intros H.
  destruct (String.prefix "-00001-of-" s) eqn:Hp; [|discriminate].
  apply prefix_sound in Hp.
  apply digits_gguf_sound in H as [Hs Hd].
  split; [|exact Hd].
  rewrite Hp at 1. cbn [String.length]. rewrite Hs. reflexivity.
Qed.

(** What the regex captures: the filename is [prefix-00001-of-total.gguf]
    with [total] a nonempty run of digits. *)
Lemma shard_caps_sound (s p t : string) :
  shard_caps s = Some (p, t) ->
  s = p ++ "-00001-of-" ++ t ++ ".gguf" /\ t <> EmptyString /\
  forallb is_digit (list_ascii_of_string t) = true.
Proof.
  revert p; induction s as [|c r IH]; intros p H; simpl in H; [discriminate|].
  destruct (Ascii.eqb c newline); [discriminate|].
  destruct (shard_caps r) as [[p' t']|] eqn:Er.
  - inversion H; subst. destruct (IH p' eq_refl) as [-> Hd]. now split.
  - destruct (tail_match r) as [t'|] eqn:Et; [|discriminate].
    inversion H; subst. apply tail_match_sound in Et as [-> Hd]. now split.
Qed.

Lemma in_range_from (k i : N) (c : nat) :
  In i (range_from k c) <-> (k <= i < k + N.of_nat c)%N.
Proof.
  revert k; induction c as [|c IH]; intros k; simpl.
  - lia.
  - rewrite IH. lia.
Qed.

Lemma in_range1 (i total : N) : In i (range1 total) <-> (1 <= i <= total)%N.
Proof. unfold range1. rewrite in_range_from, N2Nat.id. lia. Qed.

Lemma range_from_nodup (k : N) (c : nat) : NoDup (range_from k c).
Proof.
  revert k; induction c as [|c IH]; intros k; simpl; [constructor|constructor; [|apply IH]].
  rewrite in_range_from. lia.
Qed.

Lemma nodup_map_on {A B} (f : A -> B) (l : list A) :
  (forall x y, In x l -> In y l -> f x = f y -> x = y) -> NoDup l -> NoDup (map f l).
Proof.
  induction l as [|a r IH]; intros Hinj Hnd; simpl; constructor.
  - intros Hin. apply in_map_iff in Hin as [x [Hx Hin]].
    inversion Hnd; subst.
    assert (x = a) by (apply Hinj; simpl; auto). subst. contradiction.
  - inversion Hnd; subst. apply IH; auto. intros x y Hx Hy. apply Hinj; simpl; auto.
Qed.

Lemma sapp_cancel_l (p a b : string) : p ++ a = p ++ b -> a = b.
Proof. induction p as [|c p IH]; simpl; [auto|intros H; inversion H; auto]. Qed.

Lemma sapp_same_length (a b r1 r2 : string) :
  String.length a = String.length b -> a ++ r1 = b ++ r2 -> a = b.
Proof.
  revert b; induction a as [|c a IH]; intros [|d b] Hl H; simpl in *;
    try discriminate; [reflexivity|].
  inversion H; subst. f_equal. apply IH; auto.
Qed.

(** Indices up to 99999 print on five digits that parse back. *)
Lemma index_fmt05 (i : N) :
  (1 <= i <= 99999)%N -> String.length (fmt05 i) = 5 /\ parse_u32 (fmt05 i) = Some i.
Proof.
  intros Hi.
  assert (Hin : In i (range1 99999)) by (apply in_range1; lia).
  pose proof (proj1 (forallb_forall _ _) indices_roundtrip i Hin) as H.
  unfold index_roundtrip in H. apply andb_prop in H as [H1 H2].
  apply Nat.eqb_eq in H1. split; [exact H1|].
  destruct (parse_u32 (fmt05 i)) as [j|]; [|discriminate].
  apply N.eqb_eq in H2. now subst.
Qed.

(** A five-digit total parses below 100000 and prints back unchanged. *)
Lemma total_fmt05 (t : string) :
  String.length t = 5 -> forallb is_digit (list_ascii_of_string t) = true ->
  exists total, parse_u32 t = Some total /\ (total < 100000)%N /\ fmt05 total = t.
Proof.
  intros Hl Hd. pose proof (in_all5 t Hl Hd) as Hin.
  pose proof (proj1 (forallb_forall _ _) all5_roundtrip t Hin) as H.
  unfold total_roundtrip in H.
  destruct (parse_u32 t) as [total|]; [|discriminate].
  apply andb_prop in H as [H1 H2].
  exists total. split; [reflexivity|split].
  - now apply N.ltb_lt.
  - now apply String.eqb_eq.
Qed.

(** C5.  When the filename matches [<prefix>-00001-of-<NNNNN>.gguf] (the
    regex of [download_model], with a five-digit total) and no direct URL
    is given, the files the worker fetches are exactly
    [<prefix>-<i>-of-<NNNNN>.gguf] for [i] from 1 to [NNNNN], each index
    zero-padded to five digits, without repetition (a bijection with the
    index range); with a direct URL the list is that single URL saved
    under [filename]. *)
Theorem shard_expansion (repo_id filename : string) (subfolder : option string)
    (prefix nnnnn : string) :
  shard_caps filename = Some (prefix, nnnnn) ->
  String.length nnnnn = 5 ->
  filename = prefix ++ "-00001-of-" ++ nnnnn ++ ".gguf" /\
  (exists total files,
      parse_u32 nnnnn = Some total /\
      files_to_download repo_id filename subfolder None = Some files /\
      map fst files =
        map (fun i => prefix ++ "-" ++ fmt05 i ++ "-of-" ++ nnnnn ++ ".gguf")
            (range1 total) /\
      NoDup (map fst files) /\
      (forall f, In f (map fst files) <->
                 exists i, (1 <= i <= total)%N /\
                           f = prefix ++ "-" ++ fmt05 i ++ "-of-" ++ nnnnn ++ ".gguf") /\
      (forall i, In i (range1 total) ->
                 String.length (fmt05 i) = 5 /\ parse_u32 (fmt05 i) = Some i)) /\
  (forall url, files_to_download repo_id filename subfolder (Some url) =
               Some [(filename, url)]).
Proof.
  intros Hcaps Hlen.
  destruct (shard_caps_sound _ _ _ Hcaps) as [Hfile [_ Hdig]].
  split; [exact Hfile|split; [|reflexivity]].
  destruct (total_fmt05 nnnnn Hlen Hdig) as [total [Hparse [Hlt Hfmt]]].
  set (name := fun i => prefix ++ "-" ++ fmt05 i ++ "-of-" ++ nnnnn ++ ".gguf").
  assert (Hidx : forall i, In i (range1 total) ->
                 String.length (fmt05 i) = 5 /\ parse_u32 (fmt05 i) = Some i).
  { intros i Hi. apply in_range1 in Hi. apply index_fmt05. lia. }
  exists total, (map (fun i => (name i, hf_url repo_id subfolder (name i))) (range1 total)).
  assert (Hfiles : map fst (map (fun i => (name i, hf_url repo_id subfolder (name i)))
                                (range1 total)) = map name (range1 total)).
  { rewrite map_map. reflexivity. }
  split; [exact Hparse|split; [|split; [exact Hfiles|split; [|split; [|exact Hidx]]]]].
  - unfold files_to_download. rewrite Hcaps, Hparse.
    unfold shard_file. rewrite Hfmt. reflexivity.
  - rewrite Hfiles. apply nodup_map_on; [|apply range_from_nodup].
    intros x y Hx Hy Hxy. unfold name in Hxy.
    apply sapp_cancel_l in Hxy. apply (sapp_cancel_l "-") in Hxy.
    destruct (Hidx x Hx) as [Lx Px]. destruct (Hidx y Hy) as [Ly Py].
    apply sapp_same_length in Hxy; [|congruence].
    rewrite Hxy in Px. congruence.
  - intros f. rewrite Hfiles, in_map_iff. split.
    + intros [i [Hi Hin]]. exists i. split; [now apply in_range1|now symmetry].
    + intros [i [Hi Hf]]. exists i. split; [now symmetry|now apply in_range1].
Qed.

End PullProofs.

(* ------------------------------------------------------------------------ *)
(** ** Model deletion and the catalog listing *)

Module CatalogProofs.
Import Catalog.

Lemma mem_In (x : string) (l : list string) : mem x l = true <-> In x l.
Proof.
  unfold mem. rewrite existsb_exists. split.
  - intros [y [Hy E]]. apply String.eqb_eq in E. subst. exact Hy.
  - intros H. exists x. split; [exact H | apply String.eqb_refl].
Qed.

Lemma mem_snoc (x n : string) (l : list string) : mem x (l ++ [n]) = mem x (n :: l).
Proof. unfold mem. rewrite existsb_app. simpl. rewrite orb_false_r. apply orb_comm. Qed.

(** [first_occurrences] depends on [seen] only through membership. *)
Lemma first_occurrences_ext (l : list ModelInfo) (s1 s2 : list string) :
  (forall x, mem x s1 = mem x s2) -> first_occurrences s1 l = first_occurrences s2 l.
Proof.
  revert s1 s2; induction l as [|mi r IH]; intros s1 s2 H; cbn [first_occurrences];
    [reflexivity|].
  rewrite H. destruct (mem (mi_name mi) s2); [apply IH; exact H|].
  f_equal. apply IH. intros x. unfold mem in *. simpl. rewrite H. reflexivity.
Qed.

(** The accumulator of [models_handler] keeps [seen] equal to the names
    pushed so far. *)
Definition acc_of (ms : list ModelInfo) : Acc := (ms, map mi_name ms).

Lemma fold_push_unseen (l ms : list ModelInfo) :
  fold_left push_unseen l (acc_of ms) =
  acc_of (ms ++ first_occurrences (map mi_name ms) l).
Proof.
  revert ms; induction l as [|mi r IH]; intros ms; cbn [fold_left first_occurrences].
  - rewrite app_nil_r. reflexivity.
  - unfold push_unseen.
    change (snd (acc_of ms)) with (map mi_name ms).
    change (fst (acc_of ms)) with ms.
    destruct (mem (mi_name mi) (map mi_name ms)) eqn:Em.
    + change (ms, map mi_name ms) with (acc_of ms). apply IH.
    + replace (ms ++ [mi], map mi_name ms ++ [mi_name mi]) with (acc_of (ms ++ [mi]))
        by (unfold acc_of; rewrite map_app; reflexivity).
      rewrite IH.
      rewrite (first_occurrences_ext r _ (mi_name mi :: map mi_name ms))
        by (intros x; rewrite map_app; apply mem_snoc).
      rewrite <- app_assoc. reflexivity.
Qed.

Definition config_info (kv : string * string) : ModelInfo := mkInfo (fst kv) (snd kv) "config".

Lemma fold_push_config_acc (l : list (string * string)) (ms : list ModelInfo) :
  fold_left push_config l (acc_of ms) = acc_of (ms ++ map config_info l).
Proof.
  revert ms; induction l as [|kv r IH]; intros ms; cbn [fold_left map].
  - rewrite app_nil_r. reflexivity.
  - replace (push_config (acc_of ms) kv) with (acc_of (ms ++ [config_info kv]))
      by (unfold acc_of, push_config; cbn [fst snd]; rewrite map_app; reflexivity).
    rewrite IH, <- app_assoc. reflexivity.
Qed.

(** With distinct config names, the config loop (which does not consult
    [seen]) pushes what [push_unseen] would. *)
Lemma fold_push_config (l : list (string * string)) (ms : list ModelInfo) :
  NoDup (map fst l) ->
  (forall kv, In kv l -> ~ In (fst kv) (map mi_name ms)) ->
  fold_left push_config l (acc_of ms) = fold_left push_unseen (map config_info l) (acc_of ms).
Proof.
  revert ms; induction l as [|kv r IH]; intros ms Hnd Hout; [reflexivity|].
  cbn [map fold_left]. simpl in Hnd. inversion Hnd as [|? ? Hnin Hnd']; subst.
  assert (E : push_unseen (acc_of ms) (config_info kv) = acc_of (ms ++ [config_info kv])).
  { unfold push_unseen, acc_of. cbn [fst snd].
    destruct (mem (mi_name (config_info kv)) (map mi_name ms)) eqn:Em.
    - apply mem_In in Em. exfalso. apply (Hout kv); [left; reflexivity|exact Em].
    - rewrite map_app. reflexivity. }
  assert (E' : push_config (acc_of ms) kv = acc_of (ms ++ [config_info kv])).
  { unfold push_config, acc_of. cbn [fst snd]. rewrite map_app. reflexivity. }
  rewrite E, E'. apply IH; [exact Hnd'|].
  intros kv' Hin. rewrite map_app. cbn. rewrite in_app_iff. intros [H|[H|[]]].
  - apply (Hout kv'); [right; exact Hin|exact H].
  - apply Hnin. rewrite H. apply in_map. exact Hin.
Qed.

Lemma fold_flat_map {A B C : Type} (g : C -> A -> C) (h : C -> B -> C) (f : A -> list B)
    (l : list A) (c : C) :
  (forall c x, g c x = fold_left h (f x) c) ->
  fold_left g l c = fold_left h (flat_map f l) c.
Proof.
  intros Hg. revert c; induction l as [|x r IH]; intros c; [reflexivity|].
  simpl. rewrite fold_left_app, <- Hg. apply IH.
Qed.

Lemma discover_entry_fold (fs : FS) (storage : Path) (a : Acc) (x : string) :
  discover_entry fs storage a x = fold_left push_unseen (discover_candidates fs storage x) a.
Proof.
  unfold discover_entry, discover_candidates. cbv zeta.
  destruct (is_dir fs (storage ++ [x])); [|destruct (is_gguf x); reflexivity].
  destruct (read_dir fs (storage ++ [x])) as [sub|]; [|reflexivity].
  destruct (find is_gguf sub); reflexivity.
Qed.

(** [models_handler] is one left fold of [push_unseen] over the three
    sources in order. *)
Lemma models_handler_fold (cfg : Config) (d : Disk) :
  NoDup (map fst (models cfg)) ->
  models_handler cfg d =
  fst (fold_left push_unseen
         (map config_info (models cfg) ++ map registry_info (registry d)
          ++ discovered (fs d) (storage_dir cfg)) (acc_of [])).
Proof.
  intros Hnd. unfold models_handler. cbv zeta.
  change (@pair (list ModelInfo) (list string) [] []) with (acc_of []).
  rewrite (fold_push_config (models cfg) [] Hnd) by (intros; simpl; tauto).
  rewrite !fold_left_app. unfold discovered.
  destruct (exists_path (fs d) (storage_dir cfg)); [|reflexivity].
  destruct (read_dir (fs d) (storage_dir cfg)); [|reflexivity].
  f_equal. apply fold_flat_map. intros a x. apply discover_entry_fold.
Qed.

Lemma first_occurrences_fresh (l : list ModelInfo) (seen : list string) :
  NoDup (map mi_name (first_occurrences seen l)) /\
  (forall mi, In mi (first_occurrences seen l) -> ~ In (mi_name mi) seen).
Proof.
  revert seen; induction l as [|mi r IH]; intros seen; cbn [first_occurrences].
  - split; [constructor | intros _ []].
  - destruct (mem (mi_name mi) seen) eqn:Em; [apply IH|].
    destruct (IH (mi_name mi :: seen)) as [Hnd Hout].
    split.
    + cbn [map]. constructor; [|exact Hnd].
      intros Hin. apply in_map_iff in Hin. destruct Hin as [mj [Ej Hj]].
      apply (Hout mj Hj). rewrite Ej. left; reflexivity.
    + intros mj [<-|Hj].
      * intros Hin. apply mem_In in Hin. congruence.
      * intros Hin. apply (Hout mj Hj). right; exact Hin.
Qed.

Lemma nodup_fst_in (l : list (string * string)) (a b b' : string) :
  NoDup (map fst l) -> In (a, b) l -> In (a, b') l -> b = b'.
Proof.
  induction l as [|[x y] r IH]; intros Hnd H1 H2; [destruct H1|].
  simpl in Hnd. inversion Hnd as [|? ? Hnin Hnd']; subst.
  destruct H1 as [E1|H1]; destruct H2 as [E2|H2].
  - congruence.
  - inversion E1; subst. exfalso. apply Hnin. apply (in_map fst) in H2. exact H2.
  - inversion E2; subst. exfalso. apply Hnin. apply (in_map fst) in H1. exact H1.
  - apply IH; assumption.
Qed.

(** C3.  With the config's model names distinct (they are the keys of a
    [HashMap]), the listing of GET /api/models is the config entries, then
    the registry rows, then the discovered files and directories, keeping
    only the first occurrence of each name ([spec_catalog]); the names are
    pairwise distinct; and a config name is listed once, with source
    "config" and the config's path, whatever the registry or the disk
    holds. *)
Theorem catalog_merge_order (cfg : Config) (d : Disk) :
  NoDup (map fst (models cfg)) ->
  models_handler cfg d = spec_catalog cfg d /\
  NoDup (map mi_name (models_handler cfg d)) /\
  (forall name path, In (name, path) (models cfg) ->
     In (mkInfo name path "config") (models_handler cfg d) /\
     (forall mi, In mi (models_handler cfg d) -> mi_name mi = name ->
                 mi = mkInfo name path "config")).
Proof.
  intros Hnd.
  assert (Hspec : models_handler cfg d = spec_catalog cfg d).
  { rewrite (models_handler_fold cfg d Hnd), fold_push_unseen. reflexivity. }
  assert (Hsplit : models_handler cfg d =
            map config_info (models cfg) ++
            first_occurrences (map mi_name (map config_info (models cfg)))
              (map registry_info (registry d) ++ discovered (fs d) (storage_dir cfg))).
  { rewrite (models_handler_fold cfg d Hnd), fold_left_app.
    rewrite <- (fold_push_config (models cfg) [] Hnd) by (intros; simpl; tauto).
    rewrite fold_push_config_acc, fold_push_unseen. reflexivity. }
  split; [exact Hspec|split].
  - rewrite Hspec. unfold spec_catalog. apply (proj1 (first_occurrences_fresh _ [])).
  - intros name path Hin. rewrite Hsplit. split.
    + apply in_or_app. left. apply (in_map config_info) in Hin. exact Hin.
    + intros mi Hmi Hname. apply in_app_or in Hmi. destruct Hmi as [Hmi|Hmi].
      * apply in_map_iff in Hmi. destruct Hmi as [[a b] [<- Hab]].
        cbn in Hname. subst a. unfold config_info. cbn [fst snd].
        rewrite (nodup_fst_in _ name b path Hnd Hab Hin). reflexivity.
      * exfalso. apply (proj2 (first_occurrences_fresh _ _) mi Hmi).
        rewrite Hname, map_map.
        apply (in_map (fun kv => mi_name (config_info kv))) in Hin. exact Hin.
Qed.

(** C1 (as corrected).  DELETE /api/models/:name for a name that is not in
    the config and has a registry row whose path does not canonicalize
    under the canonical storage root (or does not canonicalize at all):
    no file or directory is removed, and the fallbacks (a directory or a
    [.gguf] named after the model) are not tried.  The registry row is
    still removed and the answer is 200 when [models.json] is saved.  When
    the save fails the answer is 500: if it fails before [fs::write]
    truncates the file the row stays in place; if it fails after, the file
    no longer parses and the registry reads back empty. *)
Theorem delete_registered_outside_root (cfg : Config) (d : Disk) (name : string)
    (e : ModelEntry) :
  existsb (fun kv => String.eqb (fst kv) name) (models cfg) = false ->
  find (fun m => String.eqb (e_name m) name) (registry d) = Some e ->
  (forall p, canonicalize (fs d) (parse_path (cwd d) (e_path e)) = Some p ->
             starts_with p (storage_root cfg d) = false) ->
  let '(code, d') := delete_model_handler cfg d name in
  fs d' = fs d /\
  (registry_save d = RegSaved ->
     code = 200%N /\
     registry d' = filter (fun m => negb (String.eqb (e_name m) name)) (registry d) /\
     ~ In e (registry d')) /\
  (registry_save d = RegNotSaved -> code = 500%N /\ registry d' = registry d) /\
  (registry_save d = RegTruncated -> code = 500%N /\ registry d' = []).
Proof.
  intros Hcfg Hfind Hout.
  assert (Hname : e_name e = name).
  { apply find_some in Hfind. destruct Hfind as [_ E]. apply String.eqb_eq. exact E. }
  unfold delete_model_handler. rewrite Hcfg, Hfind. cbv beta iota zeta.
  assert (Hfs : match canonicalize (fs d) (parse_path (cwd d) (e_path e)) with
                | Some p =>
                    if starts_with p (storage_root cfg d)
                    then (if is_dir (fs d) p then remove_dir_all (fs d) p
                          else remove_file (fs d) p)
                    else fs d
                | None => fs d
                end = fs d).
  { destruct (canonicalize (fs d) (parse_path (cwd d) (e_path e))) as [p|] eqn:Ec;
      [rewrite (Hout p eq_refl)|]; reflexivity. }
  rewrite Hfs.
  destruct (registry_save d); cbn [fs registry];
    (split; [reflexivity|split; [|split]]); intros Hs; try discriminate Hs;
    try (split; reflexivity).
  split; [reflexivity|split; [reflexivity|]].
  intros Hin. apply filter_In in Hin. destruct Hin as [_ Hn].
  rewrite Hname, String.eqb_refl in Hn. discriminate.
Qed.

End CatalogProofs.

(* ======================================================================== *)
(** * The claims on concrete inputs *)

Module Examples.
Import Prompt SessionStore Server Pull Catalog Fixtures.
Local Open Scope string_scope.

(** The C1 theorem on the [evil -> /etc/passwd] row: no file is touched. *)
Lemma delete_registered_outside_root_witness :
  fs (snd (delete_model_handler cfg_data disk_evil "evil")) = fs disk_evil.
Proof.
  assert (Hout : forall p,
             canonicalize (fs disk_evil) (parse_path (cwd disk_evil) (e_path evil_entry))
               = Some p ->
             starts_with p (storage_root cfg_data disk_evil) = false).
  { intros p Hp. vm_compute in Hp. injection Hp as <-. vm_compute. reflexivity. }
  pose proof (CatalogProofs.delete_registered_outside_root cfg_data disk_evil "evil"
                evil_entry eq_refl eq_refl Hout) as H.
  destruct (delete_model_handler cfg_data disk_evil "evil") as [code d'].
  exact (proj1 H).
Defined.

(** C1 as first stated fails: deleting [evil] answers 200 (not 404) and
    drops the registry row, while [/etc/passwd] stays. *)
Lemma delete_evil_removes_row :
  delete_model_handler cfg_data disk_evil "evil" = (200%N, mkDisk fs_evil [] ["data"] RegSaved).
Proof. vm_compute. reflexivity. Qed.

(** C2: DELETE /api/models/.. with an empty registry answers 200 and
    removes the contents of the parent of the storage directory, among
    them the file [/data/other], whose canonical path is not under the
    canonical storage root [/data/models]. *)
Lemma delete_dotdot_escapes_storage :
  fst (delete_model_handler cfg_data disk_sibling "..") = 200%N /\
  existsb (fun e => path_eqb (fst e) ["data"; "other"])
          (fs (snd (delete_model_handler cfg_data disk_sibling ".."))) = false /\
  In (["data"; "other"], File) (fs disk_sibling) /\
  canonicalize (fs disk_sibling) ["data"; "other"] = Some ["data"; "other"] /\
  storage_root cfg_data disk_sibling = ["data"; "models"] /\
  starts_with ["data"; "other"] ["data"; "models"] = false.
Proof.
  split; [vm_compute; reflexivity|].
  split; [vm_compute; reflexivity|].
  split; [unfold disk_sibling, fs_sibling; cbn [fs]; do 3 right; left; reflexivity|].
  split; [vm_compute; reflexivity|].
  split; vm_compute; reflexivity.
Qed.

(** The C3 theorem on a catalog where [m1] is in the config and the
    registry. *)
Lemma catalog_merge_order_witness :
  NoDup (map fst (models cfg_catalog)) /\
  models_handler cfg_catalog disk_catalog = spec_catalog cfg_catalog disk_catalog.
Proof.
  assert (H : NoDup (map fst (models cfg_catalog))).
  { cbn. constructor; [intros []|constructor]. }
  split; [exact H | exact (proj1 (CatalogProofs.catalog_merge_order _ disk_catalog H))].
Defined.

(** The C4 theorem after creating a session and adding a message to it. *)
Lemma message_count_consistent_witness :
  let st := exec (exec empty_store (OpCreate "s1" (Some "b") None "t0"))
                 (OpAddMessage "s1" "user" "hi" None "t1") in
  reachable st /\ counts_consistent st.
Proof.
  cbv zeta.
  assert (H : reachable (exec (exec empty_store (OpCreate "s1" (Some "b") None "t0"))
                              (OpAddMessage "s1" "user" "hi" None "t1"))).
  { apply reach_step; [apply reach_step; [apply reach_init | simpl; tauto] | exact I]. }
  split; [exact H | exact (proj1 (SessionProofs.message_count_consistent _ H))].
Defined.

(** The C5 theorem on [part-00001-of-00003.gguf]. *)
Lemma shard_expansion_witness :
  shard_caps "part-00001-of-00003.gguf" = Some ("part", "00003") /\
  String.length "00003" = 5 /\
  "part-00001-of-00003.gguf" = "part" ++ "-00001-of-" ++ "00003" ++ ".gguf".
Proof.
  assert (H1 : shard_caps "part-00001-of-00003.gguf" = Some ("part", "00003"))
    by (vm_compute; reflexivity).
  assert (H2 : String.length "00003" = 5) by reflexivity.
  split; [exact H1|split; [exact H2|]].
  exact (proj1 (PullProofs.shard_expansion "org/repo" _ None _ _ H1 H2)).
Defined.

(** The C7 theorem on a two-message chat. *)
Lemma chat_prompt_assembly_witness :
  snd (chat_handler env_ok (state_with "b" (Some "b")) chat_b) =
  Some (spec_prompt two_messages).
Proof.
  destruct (chat_handler env_ok (state_with "b" (Some "b")) chat_b) as [[r st'] po] eqn:E.
  destruct po as [p|]; [|vm_compute in E; discriminate].
  cbn [snd]. f_equal. exact (proj1 PromptProofs.chat_prompt_assembly _ _ _ _ _ _ E).
Defined.

(** The C8 theorem when a new engine is loaded: the default follows. *)
Lemma chat_default_model_update_witness :
  cfg_default (snd (fst (chat_handler env_ok (state_with "a" None) chat_b))) = "b" /\
  disk_default (snd (fst (chat_handler env_ok (state_with "a" None) chat_b))) = "b".
Proof.
  pose proof (HandlerProofs.chat_default_model_update env_ok (state_with "a" None) chat_b)
    as H.
  vm_compute in H. vm_compute.
  destruct (proj1 H eq_refl) as [H1 [_ H3]].
  split; [exact H1 | exact (H3 ltac:(intros Habs; discriminate Habs) eq_refl)].
Defined.

(** C8 as first stated fails: asking for the resident model [b] while the
    default is [other] answers 200 and leaves the default [other]. *)
Lemma chat_resident_keeps_default :
  let '(r, st', _) := chat_handler env_ok (state_with "other" (Some "b")) chat_b in
  status r = 200%N /\ resident st' = Some "b" /\ cfg_default st' = "other".
Proof. vm_compute. split; [reflexivity|split; reflexivity]. Qed.

(** The C9 theorem on an unknown session id [gone]. *)
Lemma chat_session_unknown_id_witness :
  current_session (snd (fst (chat_with_session_handler env_ok (state_with "b" None)
                               (session_req "b" "gone")))) = Some "uuid-1".
Proof.
  pose proof (HandlerProofs.chat_session_unknown_id env_ok (state_with "b" None)
                (session_req "b" "gone") "gone" eq_refl eq_refl eq_refl
                ltac:(vm_compute; intros Habs; discriminate Habs)) as H.
  vm_compute in H. vm_compute. exact (proj1 H).
Defined.

(** C9 as first stated fails: an unknown session id with a model that
    cannot be loaded answers 404. *)
Lemma chat_session_unknown_id_404 :
  let '(r, st', _) := chat_with_session_handler env_noload (state_with "b" None)
                        (session_req "m" "gone") in
  status r = 404%N /\ current_session st' = Some "uuid-1".
Proof. vm_compute. split; reflexivity. Qed.

(** The C10 theorem on the session id [gone]. *)
Lemma add_message_to_missing_session_witness :
  get_session (store (state_with "b" None)) "gone" = None /\
  status (fst (add_message_handler env_ok (state_with "b" None) "gone" note)) = 500%N /\
  get_session_messages_handler (state_with "b" None) "gone" = RespMessages [].
Proof.
  assert (H : get_session (store (state_with "b" None)) "gone" = None) by reflexivity.
  destruct (DanglingProofs.add_message_to_missing_session env_ok (state_with "b" None)
              "gone" note H) as [_ [H2 H3]].
  split; [exact H|split; [exact H2|exact (H3 SessionStore.reach_init)]].
Defined.

(** C10 as first stated fails: a message for a missing session is refused
    with 500, not accepted with 201, and no message row is stored. *)
Lemma add_message_missing_status_500 :
  status (fst (add_message_handler env_ok (state_with "b" None) "gone" note)) = 500%N /\
  messages (store (snd (add_message_handler env_ok (state_with "b" None) "gone" note))) = [].
Proof. vm_compute. split; reflexivity. Qed.

End Examples.

(* ======================================================================== *)
(** * Further properties of the code *)

(* ------------------------------------------------------------------------ *)
(** ** Text order, [ORDER BY ... DESC] and [LIMIT] *)

Module OrderProofs.
Import SessionQueries.

Lemma compare_le_trans (a b c : string) :
  String.compare a b <> Gt -> String.compare b c <> Gt -> String.compare a c <> Gt.
Proof.
  revert b c; induction a as [|x a IH]; intros [|y b] [|z c];
    cbn [String.compare]; try congruence.
  unfold Ascii.compare.
  destruct (N.compare_spec (N_of_ascii x) (N_of_ascii y));
  destruct (N.compare_spec (N_of_ascii y) (N_of_ascii z));
  destruct (N.compare_spec (N_of_ascii x) (N_of_ascii z));
  try congruence; try lia.
  apply IH.
Qed.

Lemma leb_trans (a b c : string) :
  String.leb a b = true -> String.leb b c = true -> String.leb a c = true.
Proof.
  unfold String.leb. intros H1 H2.
  destruct (String.compare a c) eqn:E; [reflexivity|reflexivity|].
  exfalso. apply (compare_le_trans a b c); [| |exact E].
  - destruct (String.compare a b); congruence.
  - destruct (String.compare b c); congruence.
Qed.

Lemma compare_refl (a : string) : String.compare a a = Eq.
Proof.
  induction a as [|x a IH]; simpl; [reflexivity|].
  unfold Ascii.compare. rewrite N.compare_refl. exact IH.
Qed.

Lemma leb_refl (a : string) : String.leb a a = true.
Proof. unfold String.leb. rewrite compare_refl. reflexivity. Qed.

Lemma leb_gt (a b : string) : String.compare a b = Gt -> String.leb b a = true.
Proof. intros H. unfold String.leb. rewrite String.compare_antisym, H. reflexivity. Qed.

Lemma leb_not_gt (a b : string) : String.compare a b <> Gt -> String.leb a b = true.
Proof. unfold String.leb. destruct (String.compare a b); congruence. Qed.

Lemma SS_app_cross {A} (R : A -> A -> Prop) (l1 l2 : list A) (a b : A) :
  StronglySorted R (l1 ++ l2) -> In a l1 -> In b l2 -> R a b.
Proof.
  induction l1 as [|x r IH]; intros H Ha Hb; [destruct Ha|].
  apply StronglySorted_inv in H as [H HF]. destruct Ha as [<-|Ha].
  - rewrite Forall_forall in HF. apply HF, in_or_app. right; exact Hb.
  - apply IH; assumption.
Qed.

Lemma SS_app {A} (R : A -> A -> Prop) (l1 l2 : list A) :
  StronglySorted R l1 -> StronglySorted R l2 ->
  (forall a b, In a l1 -> In b l2 -> R a b) -> StronglySorted R (l1 ++ l2).
Proof.
  induction l1 as [|x r IH]; intros H1 H2 Hx; [exact H2|].
  apply StronglySorted_inv in H1 as [H1 HF]. simpl. constructor.
  - apply IH; [exact H1|exact H2|]. intros a b Ha Hb. apply Hx; [right|]; assumption.
  - apply Forall_forall. intros y Hy. apply in_app_or in Hy as [Hy|Hy].
    + rewrite Forall_forall in HF. apply HF, Hy.
    + apply Hx; [left; reflexivity|exact Hy].
Qed.

Lemma SS_rev {A} (R : A -> A -> Prop) (l : list A) :
  StronglySorted R l -> StronglySorted (fun a b => R b a) (rev l).
Proof.
  induction l as [|x r IH]; intros H; [constructor|].
  apply StronglySorted_inv in H as [H HF]. simpl. apply SS_app.
  - apply IH, H.
  - constructor; [constructor|constructor].
  - intros a b Ha [<-|[]]. rewrite <- in_rev in Ha.
    rewrite Forall_forall in HF. apply HF, Ha.
Qed.

Lemma in_firstn {A} (n : nat) (l : list A) (a : A) : In a (firstn n l) -> In a l.
Proof. intros H. rewrite <- (firstn_skipn n l). apply in_or_app. left. exact H. Qed.

Lemma SS_firstn {A} (R : A -> A -> Prop) (n : nat) (l : list A) :
  StronglySorted R l -> StronglySorted R (firstn n l).
Proof.
  revert l; induction n as [|n IH]; intros [|x r] H; simpl; try constructor.
  - apply StronglySorted_inv in H as [H HF]. apply IH, H.
  - apply StronglySorted_inv in H as [H HF]. rewrite Forall_forall in *.
    intros y Hy. apply HF. apply (in_firstn n r), Hy.
Qed.

Section Desc.
Context {A : Type} (key : A -> string).

Lemma insert_desc_perm (x : A) (l : list A) : Permutation (insert_desc key x l) (x :: l).
Proof.
  induction l as [|y r IH]; simpl; [reflexivity|].
  destruct (String.compare (key x) (key y)); try reflexivity;
    rewrite IH; apply perm_swap.
Qed.

Lemma sort_desc_perm (l : list A) : Permutation (sort_desc key l) l.
Proof.
  induction l as [|x r IH]; simpl; [reflexivity|].
  rewrite insert_desc_perm, IH. reflexivity.
Qed.

Lemma insert_desc_sorted (x : A) (l : list A) :
  StronglySorted (fun a b => String.leb (key b) (key a) = true) l ->
  StronglySorted (fun a b => String.leb (key b) (key a) = true) (insert_desc key x l).
Proof.
  induction l as [|y r IH]; intros H; simpl; [repeat constructor|].
  pose proof H as H0. apply StronglySorted_inv in H0 as [Hr HF].
  rewrite Forall_forall in HF.
  destruct (String.compare (key x) (key y)) eqn:E.
  - constructor; [apply IH, Hr|].
    apply Forall_forall. intros z Hz.
    apply (Permutation_in _ (insert_desc_perm x r)) in Hz. destruct Hz as [<-|Hz].
    + apply leb_not_gt. congruence.
    + apply HF, Hz.
  - constructor; [apply IH, Hr|].
    apply Forall_forall. intros z Hz.
    apply (Permutation_in _ (insert_desc_perm x r)) in Hz. destruct Hz as [<-|Hz].
    + apply leb_not_gt. congruence.
    + apply HF, Hz.
  - constructor; [exact H|]. apply Forall_forall. intros z [<-|Hz].
    + apply leb_gt, E.
    + apply (leb_trans _ (key y)); [apply HF, Hz|apply leb_gt, E].
Qed.

Lemma sort_desc_sorted (l : list A) :
  StronglySorted (fun a b => String.leb (key b) (key a) = true) (sort_desc key l).
Proof.
  induction l as [|x r IH]; simpl; [constructor|]. apply insert_desc_sorted, IH.
Qed.

End Desc.

Lemma usize_small (n : N) : (n < 2 ^ 63)%N -> usize_as_i64 n = Z.of_N n.
Proof.
  intros H. unfold usize_as_i64. rewrite N.mod_small by (simpl in *; lia).
  replace (Z.of_N n <? 2 ^ 63)%Z with true; [reflexivity|].
  symmetry. apply Z.ltb_lt. simpl in *. lia.
Qed.

Lemma usize_big (n : N) : (2 ^ 63 <= n < 2 ^ 64)%N -> (usize_as_i64 n < 0)%Z.
Proof.
  intros H. unfold usize_as_i64. rewrite N.mod_small by (simpl in *; lia).
  replace (Z.of_N n <? 2 ^ 63)%Z with false; [simpl in *; lia|].
  symmetry. apply Z.ltb_ge. simpl in *. lia.
Qed.

Lemma sql_limit_small {A} (n : N) (l : list A) :
  (n < 2 ^ 63)%N -> sql_limit (usize_as_i64 n) l = firstn (N.to_nat n) l.
Proof.
  intros H. unfold sql_limit. rewrite usize_small by exact H.
  replace (Z.of_N n <? 0)%Z with false by (symmetry; apply Z.ltb_ge; lia).
  f_equal. lia.
Qed.

Lemma sql_limit_big {A} (n : N) (l : list A) :
  (2 ^ 63 <= n < 2 ^ 64)%N -> sql_limit (usize_as_i64 n) l = l.
Proof.
  intros H. unfold sql_limit.
  replace (usize_as_i64 n <? 0)%Z with true; [reflexivity|].
  symmetry. apply Z.ltb_lt, usize_big, H.
Qed.

(** The rows a [ORDER BY key DESC LIMIT n] query returns, for [n] below
    2^63: as many as the bound allows, taken from the table, newest first,
    and none of the rows left out is newer than a row returned. *)
Lemma top_window {A} (key : A -> string) (n : N) (l : list A) :
  (n < 2 ^ 63)%N ->
  let r := sql_limit (usize_as_i64 n) (sort_desc key l) in
  List.length r = Nat.min (N.to_nat n) (List.length l) /\
  (forall a, In a r -> In a l) /\
  StronglySorted (fun a b => String.leb (key b) (key a) = true) r /\
  (forall a b, In a r -> In b l -> ~ In b r -> String.leb (key b) (key a) = true).
Proof.
  intros H r. unfold r. rewrite sql_limit_small by exact H.
  pose proof (sort_desc_perm key l) as Hp.
  pose proof (sort_desc_sorted key l) as Hs.
  split; [|split; [|split]].
  - rewrite length_firstn, (Permutation_length Hp). reflexivity.
  - intros a Ha. apply (Permutation_in _ Hp). apply (in_firstn (N.to_nat n)), Ha.
  - apply SS_firstn, Hs.
  - intros a b Ha Hb Hnb.
    apply (Permutation_in _ (Permutation_sym Hp)) in Hb.
    rewrite <- (firstn_skipn (N.to_nat n) (sort_desc key l)) in Hb, Hs.
    apply in_app_or in Hb as [Hb|Hb]; [contradiction|].
    apply (SS_app_cross _ _ _ a b Hs Ha Hb).
Qed.

(** The same query for any [usize] bound: a bound of 2^63 or more is a
    negative [i64], and SQLite then returns every row. *)
Lemma limited_query {A} (key : A -> string) (n : N) (l : list A) :
  (n < 2 ^ 64)%N ->
  let r := sql_limit (usize_as_i64 n) (sort_desc key l) in
  (forall a, In a r -> In a l) /\
  StronglySorted (fun a b => String.leb (key b) (key a) = true) r /\
  (forall a b, In a r -> In b l -> ~ In b r -> String.leb (key b) (key a) = true) /\
  ((n < 2 ^ 63)%N -> List.length r = Nat.min (N.to_nat n) (List.length l)) /\
  ((2 ^ 63 <= n)%N -> Permutation r l).
Proof.
  intros H r.
  destruct (N.lt_ge_cases n (2 ^ 63)) as [Hs|Hb].
  - destruct (top_window key n l Hs) as [L [I [S T]]]. fold r in L, I, S, T.
    split; [exact I|split; [exact S|split; [exact T|split; [intros _; exact L|]]]].
    intros Hb. exfalso. apply (N.lt_irrefl n). apply (N.lt_le_trans _ _ _ Hs Hb).
  - assert (Hr : r = sort_desc key l) by (apply sql_limit_big; split; assumption).
    pose proof (sort_desc_perm key l) as Hp. rewrite <- Hr in Hp.
    split; [intros a Ha; apply (Permutation_in _ Hp), Ha|].
    split; [rewrite Hr; apply sort_desc_sorted|].
    split; [intros a b _ Hb' Hn; exfalso; apply Hn, (Permutation_in _ (Permutation_sym Hp)), Hb'|].
    split; [intros Hs; exfalso; apply (N.lt_irrefl n), (N.lt_le_trans _ _ _ Hs Hb)|].
    intros _. exact Hp.
Qed.

(** A row strictly newer than every other one comes first. *)
Lemma newest_first {A} (key : A -> string) (l : list A) (m : A) (n : N) :
  (forall e, In e l -> String.compare (key e) (key m) = Lt) ->
  (1 <= n < 2 ^ 63)%N ->
  hd_error (sql_limit (usize_as_i64 n) (sort_desc key (l ++ [m]))) = Some m.
Proof.
  intros Hold Hn. rewrite sql_limit_small by apply Hn.
  pose proof (sort_desc_perm key (l ++ [m])) as Hp.
  pose proof (sort_desc_sorted key (l ++ [m])) as Hs.
  destruct (sort_desc key (l ++ [m])) as [|h t] eqn:E.
  - apply Permutation_length in Hp. rewrite length_app in Hp. simpl in Hp. lia.
  - replace (N.to_nat n) with (S (N.to_nat n - 1)) by lia. simpl. f_equal.
    assert (Hm : In m (h :: t)) by (apply (Permutation_in _ (Permutation_sym Hp)), in_or_app; right; left; reflexivity).
    assert (Hh : In h (l ++ [m])) by (apply (Permutation_in _ Hp); left; reflexivity).
    apply in_app_or in Hh as [Hh|[Hh|[]]]; [|symmetry; exact Hh].
    pose proof (Hold h Hh) as Lt_h. exfalso.
    destruct Hm as [Em|Hm].
    + subst h. rewrite compare_refl in Lt_h. discriminate.
    + apply StronglySorted_inv in Hs as [_ HF]. rewrite Forall_forall in HF.
      specialize (HF m Hm). unfold String.leb in HF.
      rewrite String.compare_antisym, Lt_h in HF. discriminate.
Qed.

End OrderProofs.

(* ------------------------------------------------------------------------ *)
(** ** The session routes *)

Module SessionApiProofs.
Import SessionStore SessionQueries Server SessionApi OrderProofs.

Lemma existsb_find {A} (f : A -> bool) (l : list A) :
  existsb f l = match find f l with Some _ => true | None => false end.
Proof.
  induction l as [|x r IH]; simpl; [reflexivity|]. destruct (f x); [reflexivity|exact IH].
Qed.

Lemma find_filter_other (l : list Session) (sid x : string) :
  x <> sid ->
  find (fun s => String.eqb (s_id s) x) (filter (fun s => negb (String.eqb (s_id s) sid)) l) =
  find (fun s => String.eqb (s_id s) x) l.
Proof.
  intros Hx. induction l as [|s r IH]; simpl; [reflexivity|].
  destruct (String.eqb_spec (s_id s) sid) as [E|E]; simpl.
  - destruct (String.eqb_spec (s_id s) x) as [E'|E']; [congruence|exact IH].
  - destruct (String.eqb (s_id s) x); [reflexivity|exact IH].
Qed.

Lemma find_filter_same (l : list Session) (sid : string) :
  find (fun s => String.eqb (s_id s) sid) (filter (fun s => negb (String.eqb (s_id s) sid)) l) = None.
Proof.
  induction l as [|s r IH]; simpl; [reflexivity|].
  destruct (String.eqb (s_id s) sid) eqn:E; simpl; [exact IH|]. rewrite E. exact IH.
Qed.

Lemma filter_msgs_other (l : list SessionMessage) (sid x : string) :
  x <> sid ->
  filter (fun m => String.eqb (m_session_id m) x)
         (filter (fun m => negb (String.eqb (m_session_id m) sid)) l) =
  filter (fun m => String.eqb (m_session_id m) x) l.
Proof.
  intros Hx. induction l as [|m r IH]; simpl; [reflexivity|].
  destruct (String.eqb_spec (m_session_id m) sid) as [E|E]; simpl.
  - destruct (String.eqb_spec (m_session_id m) x) as [E'|E']; [congruence|exact IH].
  - destruct (String.eqb (m_session_id m) x); [f_equal|]; exact IH.
Qed.

Lemma filter_msgs_same (l : list SessionMessage) (sid : string) :
  filter (fun m => String.eqb (m_session_id m) sid)
         (filter (fun m => negb (String.eqb (m_session_id m) sid)) l) = [].
Proof.
  induction l as [|m r IH]; simpl; [reflexivity|].
  destruct (String.eqb (m_session_id m) sid) eqn:E; simpl; [exact IH|]. rewrite E. exact IH.
Qed.

(** X1.  GET /api/sessions lists at most 50 sessions (fewer only when the
    table has fewer), all of them rows of the table, most recently updated
    first, and no session left out was updated later than one listed; the
    current-session pointer is returned as it is. *)
Theorem list_sessions_newest_50 (st : State) :
  exists ss,
    list_sessions_handler st = ApiList ss (current_session st) /\
    List.length ss = Nat.min 50 (List.length (sessions (store st))) /\
    (forall s, In s ss -> In s (sessions (store st))) /\
    StronglySorted (fun a b => String.leb (s_updated_at b) (s_updated_at a) = true) ss /\
    (forall s s', In s ss -> In s' (sessions (store st)) -> ~ In s' ss ->
       String.leb (s_updated_at s') (s_updated_at s) = true).
Proof.
  eexists. split; [reflexivity|].
  exact (top_window s_updated_at 50 (sessions (store st)) eq_refl).
Qed.

(** X2.  GET /api/sessions/:id answers 404 exactly when the session has no
    row (even when messages for that id exist).  Otherwise it returns the
    row, the session's last 50 messages (all of them if fewer) oldest
    first, with no message left out newer than one returned, and the 10
    most recent memories. *)
Theorem get_session_view (st : State) (mt : MemTable) (sid : string) :
  match get_session_handler st mt sid with
  | ApiErr c => c = 404%N /\ get_session (store st) sid = None
  | ApiContext c =>
      get_session (store st) sid = Some (ctx_session c) /\
      List.length (ctx_messages c) = Nat.min 50 (count_rows sid (messages (store st))) /\
      (forall m, In m (ctx_messages c) -> In m (messages (store st)) /\ m_session_id m = sid) /\
      StronglySorted (fun a b => String.leb (m_created_at a) (m_created_at b) = true)
                     (ctx_messages c) /\
      (forall m m', In m (ctx_messages c) -> In m' (messages (store st)) ->
         m_session_id m' = sid -> ~ In m' (ctx_messages c) ->
         String.leb (m_created_at m') (m_created_at m) = true) /\
      List.length (ctx_recent_memory c) = Nat.min 10 (List.length (memories mt)) /\
      (forall e, In e (ctx_recent_memory c) -> In e (memories mt))
  | _ => False
  end.
Proof.
  unfold get_session_handler, get_session_context.
  destruct (get_session (store st) sid) as [s|] eqn:Es; [|split; reflexivity].
  cbn [ctx_session ctx_messages ctx_recent_memory].
  unfold get_recent_messages, get_recent_memories.
  destruct (top_window m_created_at 50
              (filter (fun m => String.eqb (m_session_id m) sid) (messages (store st))) eq_refl)
    as [L1 [I1 [S1 T1]]].
  destruct (top_window em_created_at 10 (memories mt) eq_refl) as [L2 [I2 [S2 T2]]].
  split; [reflexivity|]. split; [rewrite length_rev, L1; reflexivity|].
  split; [|split; [|split; [|split; [exact L2|exact I2]]]].
  - intros m Hm. rewrite <- in_rev in Hm. apply I1, filter_In in Hm as [Hm E].
    split; [exact Hm|]. apply String.eqb_eq, E.
  - apply (SS_rev _ _ S1).
  - intros m m' Hm Hm' Em' Hn. rewrite <- in_rev in Hm.
    apply (T1 m m' Hm); [apply filter_In; split; [exact Hm'|apply String.eqb_eq, Em']|].
    intros Hin. apply Hn. rewrite <- in_rev. exact Hin.
Qed.

(** X3.  DELETE /api/sessions/:id answers 200 and records a
    "session_deleted" memory when the session had a row, and 404 without
    recording anything when it had none.  Either way the current-session
    pointer no longer names it (another current session stays), its row and
    all its messages are gone, and every other session and its messages
    are left as they were. *)
Theorem delete_session_effects (env : Env) (st : State) (mt : MemTable) (sid : string) :
  let '(r, st', mt') := delete_session_handler env st mt sid in
  ((r = ApiDeleted sid /\ get_session (store st) sid <> None /\
    memories mt' = memories mt ++
      [mkMemory (next_mem_id mt) "session_deleted"
                (String.append "Session cleared/deleted: " sid) None (now env) None]) \/
   (r = ApiErr 404 /\ get_session (store st) sid = None /\ mt' = mt)) /\
  current_session st' <> Some sid /\
  (forall c, current_session st = Some c -> c <> sid -> current_session st' = Some c) /\
  get_session (store st') sid = None /\
  get_messages (store st') sid = [] /\
  (forall x, x <> sid ->
     get_session (store st') x = get_session (store st) x /\
     get_messages (store st') x = get_messages (store st) x).
Proof.
  unfold delete_session_handler.
  set (st1 := match current_session st with
              | Some c => if String.eqb c sid then clear_current st else st
              | None => st
              end).
  assert (Hs1 : store st1 = store st).
  { unfold st1. destruct (current_session st); [destruct (String.eqb _ _)|]; reflexivity. }
  assert (Hc1 : current_session st1 <> Some sid /\
                (forall c, current_session st = Some c -> c <> sid ->
                           current_session st1 = Some c)).
  { unfold st1. destruct (current_session st) as [c|] eqn:Ec.
    - destruct (String.eqb_spec c sid) as [E|E]; cbn.
      + split; [discriminate|intros c' Hc' Hne; congruence].
      + rewrite Ec. split; [congruence|intros c' Hc' Hne; exact Hc'].
    - rewrite Ec. split; [discriminate|intros c' Hc' Hne; exact Hc']. }
  unfold delete_session. rewrite Hs1.
  assert (Hex : existsb (fun s => String.eqb (s_id s) sid) (sessions (store st)) =
                match get_session (store st) sid with Some _ => true | None => false end)
    by apply existsb_find.
  rewrite Hex.
  assert (Hrest :
    get_session (mkStore (filter (fun s => negb (String.eqb (s_id s) sid)) (sessions (store st)))
                         (filter (fun m => negb (String.eqb (m_session_id m) sid)) (messages (store st)))
                         (next_rowid (store st))) sid = None /\
    get_messages (mkStore (filter (fun s => negb (String.eqb (s_id s) sid)) (sessions (store st)))
                          (filter (fun m => negb (String.eqb (m_session_id m) sid)) (messages (store st)))
                          (next_rowid (store st))) sid = [] /\
    (forall x, x <> sid ->
       get_session (mkStore (filter (fun s => negb (String.eqb (s_id s) sid)) (sessions (store st)))
                            (filter (fun m => negb (String.eqb (m_session_id m) sid)) (messages (store st)))
                            (next_rowid (store st))) x = get_session (store st) x /\
       get_messages (mkStore (filter (fun s => negb (String.eqb (s_id s) sid)) (sessions (store st)))
                             (filter (fun m => negb (String.eqb (m_session_id m) sid)) (messages (store st)))
                             (next_rowid (store st))) x = get_messages (store st) x)).
  { unfold get_session, get_messages. cbn [sessions messages].
    split; [apply find_filter_same|split; [rewrite filter_msgs_same; reflexivity|]].
    intros x Hx. split; [apply find_filter_other, Hx|rewrite filter_msgs_other by exact Hx; reflexivity]. }
  destruct (get_session (store st) sid) as [s|] eqn:Eg; cbn [store set_store current_session];
    destruct Hc1 as [Hc1 Hc2]; unfold set_store in *; cbn [current_session store] in *.
  - split; [left; split; [reflexivity|split; [discriminate|reflexivity]]|].
    split; [exact Hc1|split; [exact Hc2|exact Hrest]].
  - split; [right; split; [reflexivity|split; reflexivity]|].
    split; [exact Hc1|split; [exact Hc2|exact Hrest]].
Qed.

End SessionApiProofs.

(* ------------------------------------------------------------------------ *)
(** ** Episodic memory and the session-store keys *)

Module MemoryProofs.
Import SessionStore SessionQueries Server SessionApi OrderProofs.

Lemma parse_usize_bound (s : string) (n : N) : parse_usize s = Some n -> (n < 2 ^ 64)%N.
Proof.
  unfold parse_usize. intros H.
  destruct (match s with String "+" r => r | _ => s end) as [|c r]; [discriminate|].
  destruct (Pull.digits_value (String c r) 0) as [v|]; [|discriminate].
  destruct (N.ltb_spec v (2 ^ 64)) as [Hv|Hv]; [|discriminate].
  injection H as <-. exact Hv.
Qed.

(** X4.  GET /api/memory returns memories of the requested type (all types
    without [type]), newest first, with none left out newer than one
    returned.  Their number is the [limit] parameter when it parses as a
    [usize] below 2^63, and 20 when it is absent or does not parse; a limit
    of 2^63 or more turns negative in [limit as i64] and returns every
    memory of the type. *)
Theorem memories_query (mt : MemTable) (limit_param type_param : option string) :
  let pool := match type_param with
              | Some t => filter (fun m => String.eqb (em_event_type m) t) (memories mt)
              | None => memories mt
              end in
  exists ms,
    get_memories_handler mt limit_param type_param = ApiMemories ms /\
    (forall m, In m ms -> In m pool) /\
    StronglySorted (fun a b => String.leb (em_created_at b) (em_created_at a) = true) ms /\
    (forall m m', In m ms -> In m' pool -> ~ In m' ms ->
       String.leb (em_created_at m') (em_created_at m) = true) /\
    ((limit_param = None \/ exists s, limit_param = Some s /\ parse_usize s = None) ->
       List.length ms = Nat.min 20 (List.length pool)) /\
    (forall s n, limit_param = Some s -> parse_usize s = Some n -> (n < 2 ^ 63)%N ->
       List.length ms = Nat.min (N.to_nat n) (List.length pool)) /\
    (forall s n, limit_param = Some s -> parse_usize s = Some n -> (2 ^ 63 <= n)%N ->
       Permutation ms pool).
Proof.
  intros pool. unfold get_memories_handler.
  set (limit := match limit_param with
                | Some s => match parse_usize s with Some n => n | None => 20%N end
                | None => 20%N
                end).
  assert (Hlim : (limit < 2 ^ 64)%N).
  { unfold limit. destruct limit_param as [s|]; [|reflexivity].
    destruct (parse_usize s) as [n|] eqn:E; [apply (parse_usize_bound s), E|reflexivity]. }
  assert (Hdef : (limit_param = None \/ exists s, limit_param = Some s /\ parse_usize s = None) ->
                 limit = 20%N).
  { intros [->|[s [-> E]]]; unfold limit; [reflexivity|rewrite E; reflexivity]. }
  assert (Hval : forall s n, limit_param = Some s -> parse_usize s = Some n -> limit = n).
  { intros s n -> E. unfold limit. rewrite E. reflexivity. }
  exists (match type_param with
          | Some t => get_memories_by_type mt t limit
          | None => get_recent_memories mt limit
          end).
  split; [destruct type_param; reflexivity|].
  assert (Hq : match type_param with
               | Some t => get_memories_by_type mt t limit
               | None => get_recent_memories mt limit
               end = sql_limit (usize_as_i64 limit) (sort_desc em_created_at pool))
    by (unfold pool; destruct type_param; reflexivity).
  rewrite Hq.
  destruct (limited_query em_created_at limit pool Hlim) as [I [S [T [L P]]]].
  split; [exact I|split; [exact S|split; [exact T|split; [|split]]]].
  - intros Hd. rewrite (Hdef Hd) in L |- *. apply L. reflexivity.
  - intros s n Es En Hn. rewrite (Hval s n Es En) in L |- *. apply L, Hn.
  - intros s n Es En Hn. rewrite (Hval s n Es En) in P |- *. apply P, Hn.
Qed.

(** X5.  A memory recorded at a time later (as RFC 3339 text) than every
    stored memory is the first one [get_recent_memories] returns for any
    limit from 1 to 2^63 - 1, and the first one of its own type
    [get_memories_by_type] returns. *)
Theorem recorded_memory_first (mt : MemTable) (event_type summary : string)
    (session_id metadata : option string) (now : string) (limit : N) :
  (forall e, In e (memories mt) -> String.compare (em_created_at e) now = Lt) ->
  (1 <= limit < 2 ^ 63)%N ->
  let '(mt', m) := record_memory mt event_type summary session_id metadata now in
  hd_error (get_recent_memories mt' limit) = Some m /\
  hd_error (get_memories_by_type mt' event_type limit) = Some m.
Proof.
  intros Hold Hn. unfold record_memory, get_recent_memories, get_memories_by_type.
  cbn [memories]. split.
  - apply (newest_first em_created_at); [exact Hold|exact Hn].
  - rewrite filter_app. cbn [filter em_event_type]. rewrite String.eqb_refl.
    apply (newest_first em_created_at); [|exact Hn].
    intros e He. apply filter_In in He as [He _]. apply Hold, He.
Qed.

Lemma filter_no_session (l : list SessionMessage) (sid : string) :
  ~ In sid (map m_session_id l) -> filter (fun m => String.eqb (m_session_id m) sid) l = [].
Proof.
  induction l as [|m r IH]; intros H; simpl; [reflexivity|].
  destruct (String.eqb_spec (m_session_id m) sid) as [E|E].
  - exfalso. apply H. left. exact E.
  - apply IH. intros Hin. apply H. right. exact Hin.
Qed.

Lemma find_app_none {A} (f : A -> bool) (l1 l2 : list A) :
  find f l1 = None -> find f (l1 ++ l2) = find f l2.
Proof.
  induction l1 as [|x r IH]; simpl; [reflexivity|]. destruct (f x); [discriminate|exact IH].
Qed.

(** X6.  POST /api/sessions with a fresh id makes the new session current,
    answers the new row (no messages, the given model and title), and
    records a "session_created" memory naming the title ("Untitled"
    without one); a GET of the new id then returns that row with an empty
    message list. *)
Theorem create_then_get (env : Env) (st : State) (mt : MemTable) (model title : option string) :
  get_session (store st) (new_uuid env) = None ->
  ~ In (new_uuid env) (map m_session_id (messages (store st))) ->
  let '(r, st', mt') := create_session_handler env st mt model title in
  current_session st' = Some (new_uuid env) /\
  exists s,
    r = ApiSession s /\ s_id s = new_uuid env /\ s_model s = model /\
    s_title s = title /\ s_message_count s = 0%Z /\
    get_session_handler st' mt' (new_uuid env) =
      ApiContext (mkContext s [] (get_recent_memories mt' 10)) /\
    In (mkMemory (next_mem_id mt) "session_created"
           (String.append "New session started: "
              (match title with Some t => t | None => "Untitled" end))
           (Some (new_uuid env)) (now env) None) (memories mt').
Proof.
  intros Hs Hm. unfold create_session_handler.
  rewrite HandlerProofs.create_session_absent by exact Hs. cbn.
  split; [reflexivity|].
  eexists. split; [reflexivity|]. cbn.
  split; [reflexivity|split; [reflexivity|split; [reflexivity|split; [reflexivity|split]]]].
  - unfold get_session_handler, get_session_context, get_session. cbn.
    rewrite find_app_none by exact Hs. cbn. rewrite String.eqb_refl.
    unfold get_recent_messages. cbn. rewrite filter_no_session by exact Hm.
    unfold sql_limit. destruct (usize_as_i64 50 <? 0)%Z; reflexivity.
  - apply in_or_app. right. left. reflexivity.
Qed.

Lemma kept_keys_distinct {A B} (key : A -> B) (keep : A -> bool) (rows : list A) :
  NoDup (map key rows) -> NoDup (map key (filter keep rows)).
Proof.
  intros Hn. induction rows as [|r rs IH]; cbn in *; [exact Hn|].
  apply NoDup_cons_iff in Hn as [Hr Hrs].
  destruct (keep r); cbn; [|exact (IH Hrs)].
  apply NoDup_cons; [|exact (IH Hrs)].
  rewrite in_map_iff. intros [r' [Ek Hin]]. apply Hr.
  rewrite <- Ek. apply in_map. exact (proj1 (proj1 (filter_In keep r' rs) Hin)).
Qed.

(** The keys of the two tables in a reachable store. *)
Lemma store_keys (st : Store) :
  reachable st ->
  NoDup (map s_id (sessions st)) /\ NoDup (map m_id (messages st)) /\
  (0 < next_rowid st)%Z /\
  (forall m, In m (messages st) -> (0 < m_id m < next_rowid st)%Z).
Proof.
  induction 1 as [|st o Hr IH Hfresh].
  - cbn. split; [constructor|split; [constructor|split; [lia|intros _ []]]].
  - destruct IH as [Hs [Hm [Hpos Hlt]]].
    destruct o as [id model title now|sid role content meta now|sid| |sid title now|sid model now];
      cbn [exec].
    + unfold create_session.
      destruct (existsb (fun s => String.eqb (s_id s) id) (sessions st)) eqn:E;
        [split; [exact Hs|split; [exact Hm|split; assumption]]|].
      cbn. split; [|split; [exact Hm|split; assumption]].
      rewrite map_app. cbn. apply NoDup_app; [exact Hs|repeat constructor; intros []|].
      intros x Hx [<-|[]]. apply in_map_iff in Hx as [s [Es Hs']].
      assert (Hex : existsb (fun s => String.eqb (s_id s) id) (sessions st) = true)
        by (apply existsb_exists; exists s; split; [exact Hs'|apply String.eqb_eq, Es]).
      congruence.
    + unfold add_message.
      destruct (existsb (fun s => String.eqb (s_id s) sid) (sessions st));
        [|split; [exact Hs|split; [exact Hm|split; assumption]]].
      cbn. split; [rewrite DanglingProofs.ids_map_upd by reflexivity; exact Hs|].
      split; [|split; [lia|]].
      * rewrite map_app. cbn. apply NoDup_app; [exact Hm|repeat constructor; intros []|].
        intros x Hx [<-|[]]. apply in_map_iff in Hx as [m [Em Hm']].
        specialize (Hlt m Hm'). lia.
      * intros m Hin. apply in_app_or in Hin as [Hin|[<-|[]]]; [specialize (Hlt m Hin)|cbn]; lia.
    + cbn. split; [apply kept_keys_distinct, Hs|split; [apply kept_keys_distinct, Hm|split; [exact Hpos|]]].
      intros m Hin. apply filter_In in Hin as [Hin _]. apply Hlt, Hin.
    + cbn. split; [constructor|split; [constructor|split; [exact Hpos|intros _ []]]].
    + cbn. split; [rewrite DanglingProofs.ids_map_upd by reflexivity; exact Hs|split; [exact Hm|split; assumption]].
    + cbn. split; [rewrite DanglingProofs.ids_map_upd by reflexivity; exact Hs|split; [exact Hm|split; assumption]].
Qed.

(** X7.  In every store reachable from the empty database, session ids are
    pairwise distinct (the [PRIMARY KEY] check of [create_session]), and
    message ids are pairwise distinct, positive and below the
    [AUTOINCREMENT] counter. *)
Theorem store_keys_unique (st : Store) :
  reachable st ->
  NoDup (map s_id (sessions st)) /\ NoDup (map m_id (messages st)) /\
  (forall m, In m (messages st) -> (0 < m_id m < next_rowid st)%Z).
Proof.
  intros H. destruct (store_keys st H) as [Hs [Hm [_ Hlt]]].
  split; [exact Hs|split; [exact Hm|exact Hlt]].
Qed.

Lemma exec_counter (st : Store) (o : Op) : (next_rowid st <= next_rowid (exec st o))%Z.
Proof.
  destruct o as [id model title now|sid role content meta now|sid| |sid title now|sid model now];
    cbn [exec]; try (cbn; lia).
  - destruct (create_session st id model title now) as [[s' x]|] eqn:E; [|lia].
    unfold create_session in E.
    destruct (existsb _ _); [discriminate|]. injection E as <- _. cbn. lia.
  - unfold add_message. destruct (existsb _ _); cbn; lia.
Qed.

Lemma run_counter (st : Store) (os : list Op) :
  (next_rowid st <= next_rowid (fold_left exec os st))%Z.
Proof.
  revert st; induction os as [|o r IH]; intros st; cbn [fold_left]; [lia|].
  specialize (IH (exec st o)). pose proof (exec_counter st o). lia.
Qed.

(** X8.  Message ids are never reused: after any sequence of store
    operations (including deleting sessions and clearing everything), a new
    message gets an id larger than that of every message that existed
    before. *)
Theorem message_ids_never_reused (st : Store) (os : list Op) (m : SessionMessage)
    (sid role content : string) (meta : option string) (now : string)
    (st' : Store) (m' : SessionMessage) :
  reachable st -> In m (messages st) ->
  add_message (fold_left exec os st) sid role content meta now = Some (st', m') ->
  (m_id m < m_id m')%Z.
Proof.
  intros Hr Hin Hadd. destruct (store_keys st Hr) as [_ [_ [_ Hlt]]].
  specialize (Hlt m Hin). pose proof (run_counter st os).
  unfold add_message in Hadd. destruct (existsb _ _); [|discriminate].
  injection Hadd as _ <-. cbn. lia.
Qed.

End MemoryProofs.

Module MemoryProofs2.
Import SessionStore SessionQueries Server SessionApi.

Lemma mem_exec_keys (mt : MemTable) (o : MemOp) :
  NoDup (map em_id (memories mt)) ->
  (forall e, In e (memories mt) -> (0 < em_id e < next_mem_id mt)%Z) ->
  (0 < next_mem_id mt)%Z ->
  let mt' := mem_exec mt o in
  NoDup (map em_id (memories mt')) /\
  (forall e, In e (memories mt') -> (0 < em_id e < next_mem_id mt')%Z) /\
  (0 < next_mem_id mt')%Z /\ (next_mem_id mt <= next_mem_id mt')%Z.
Proof.
  intros Hn Hlt Hp. destruct o as [t s sid meta now|]; cbn.
  - split; [|split; [|lia]].
    + rewrite map_app. cbn. apply NoDup_app; [exact Hn|repeat constructor; intros []|].
      intros x Hx [<-|[]]. apply in_map_iff in Hx as [e [Ee He]].
      specialize (Hlt e He). lia.
    + intros e He. apply in_app_or in He as [He|[<-|[]]]; [specialize (Hlt e He)|cbn]; lia.
  - split; [constructor|split; [intros _ []|lia]].
Qed.

Lemma mem_run_keys (mt : MemTable) (ops : list MemOp) :
  NoDup (map em_id (memories mt)) ->
  (forall e, In e (memories mt) -> (0 < em_id e < next_mem_id mt)%Z) ->
  (0 < next_mem_id mt)%Z ->
  let mt' := fold_left mem_exec ops mt in
  NoDup (map em_id (memories mt')) /\
  (forall e, In e (memories mt') -> (0 < em_id e < next_mem_id mt')%Z) /\
  (0 < next_mem_id mt')%Z /\ (next_mem_id mt <= next_mem_id mt')%Z.
Proof.
  revert mt; induction ops as [|o r IH]; intros mt Hn Hlt Hp; cbn [fold_left].
  - split; [exact Hn|split; [exact Hlt|split; [exact Hp|lia]]].
  - destruct (mem_exec_keys mt o Hn Hlt Hp) as [Hn' [Hlt' [Hp' Hle]]].
    destruct (IH (mem_exec mt o) Hn' Hlt' Hp') as [A [B [C D]]].
    split; [exact A|split; [exact B|split; [exact C|lia]]].
Qed.

(** X9.  Memory ids are unique and never reused: after any sequence of
    recorded memories and clears from the empty table, the stored ids are
    pairwise distinct and positive, and a memory recorded after any further
    writes (clears included) gets an id larger than every one of them. *)
Theorem memory_ids_never_reused (ops1 ops2 : list MemOp) (event_type summary : string)
    (session_id metadata : option string) (now : string) :
  let mt := fold_left mem_exec ops1 empty_memories in
  NoDup (map em_id (memories mt)) /\
  (forall e, In e (memories mt) ->
     (0 < em_id e < em_id (snd (record_memory (fold_left mem_exec ops2 mt)
                                   event_type summary session_id metadata now)))%Z).
Proof.
  cbv zeta.
  destruct (mem_run_keys empty_memories ops1) as [Hn [Hlt [Hp _]]];
    [constructor|intros _ []|cbn; lia|].
  destruct (mem_run_keys (fold_left mem_exec ops1 empty_memories) ops2 Hn Hlt Hp)
    as [_ [_ [_ Hle]]].
  split; [exact Hn|].
  intros e He. specialize (Hlt e He). cbn. lia.
Qed.

(** X10.  POST /api/sessions/clear answers "cleared", unsets the current
    session and empties both tables: the session list is then empty, a GET
    of any session id answers 404 and any session's messages are empty; it
    records one "all_sessions_cleared" memory. *)
Theorem clear_all_sessions_effects (env : Env) (st : State) (mt : MemTable) :
  let '(r, st', mt') := clear_all_sessions_handler env st mt in
  r = ApiCleared /\ current_session st' = None /\
  list_sessions_handler st' = ApiList [] None /\
  (forall sid, get_session_handler st' mt' sid = ApiErr 404) /\
  (forall sid, get_messages (store st') sid = []) /\
  memories mt' = memories mt ++
    [mkMemory (next_mem_id mt) "all_sessions_cleared"
       "All sessions cleared - full context reset" None (now env) None].
Proof.
  cbn. split; [reflexivity|split; [reflexivity|split; [|split; [|split; [|reflexivity]]]]].
  - unfold list_sessions_handler, list_sessions, sql_limit. cbn.
    destruct (usize_as_i64 50 <? 0)%Z; reflexivity.
  - intros sid. reflexivity.
  - intros sid. reflexivity.
Qed.

End MemoryProofs2.

(* ------------------------------------------------------------------------ *)
(** ** The custom-model registry *)

Module CustomModelProofs.
Import CustomModels.

Lemma ueqb_true (a b : ustring) : ueqb a b = true <-> a = b.
Proof. unfold ueqb. destruct (list_eq_dec N.eq_dec a b); split; congruence. Qed.

Lemma ueqb_false (a b : ustring) : ueqb a b = false <-> a <> b.
Proof. unfold ueqb. destruct (list_eq_dec N.eq_dec a b); split; congruence. Qed.

Lemma ueqb_refl (a : ustring) : ueqb a a = true.
Proof. apply ueqb_true. reflexivity. Qed.

Section Lemmas.
Context {R : Type}.

Lemma retain_absent (n : ustring) (l : list (CustomModelConfig R)) :
  existsb (fun m => ueqb (cm_name m) n) l = false -> retain_other n l = l.
Proof.
  induction l as [|x r IH]; simpl; [reflexivity|].
  destruct (ueqb (cm_name x) n); simpl; [discriminate|]. intros H. f_equal. apply IH, H.
Qed.

Lemma find_retain_same (n : ustring) (l : list (CustomModelConfig R)) :
  find (fun m => ueqb (cm_name m) n) (retain_other n l) = None.
Proof.
  induction l as [|x r IH]; simpl; [reflexivity|].
  destruct (ueqb (cm_name x) n) eqn:E; simpl; [exact IH|rewrite E; exact IH].
Qed.

Lemma find_retain_other (n n' : ustring) (l : list (CustomModelConfig R)) :
  ueqb n' n = false ->
  find (fun m => ueqb (cm_name m) n') (retain_other n l) =
  find (fun m => ueqb (cm_name m) n') l.
Proof.
  intros Hn. induction l as [|x r IH]; simpl; [reflexivity|].
  destruct (ueqb (cm_name x) n) eqn:E; simpl.
  - apply ueqb_true in E. rewrite E.
    replace (ueqb n n') with false; [exact IH|].
    symmetry. apply ueqb_false. apply ueqb_false in Hn. congruence.
  - destruct (ueqb (cm_name x) n'); [reflexivity|exact IH].
Qed.

Lemma names_retain (n : ustring) (l : list (CustomModelConfig R)) :
  ~ In n (map cm_name (retain_other n l)).
Proof.
  unfold retain_other. intros H. apply in_map_iff in H as [m [Em Hm]].
  apply filter_In in Hm as [_ Hm]. rewrite Em, ueqb_refl in Hm. discriminate.
Qed.

Lemma nodup_retain (n : ustring) (l : list (CustomModelConfig R)) :
  NoDup (map cm_name l) -> NoDup (map cm_name (retain_other n l)).
Proof.
  unfold retain_other. induction l as [|x r IH]; intros H; simpl; [constructor|].
  inversion H as [|? ? Hx Hr]; subst. destruct (negb _); [|apply IH, Hr].
  simpl. constructor; [|apply IH, Hr].
  intros Hin. apply Hx. apply in_map_iff in Hin as [y [Ey Hy]].
  apply filter_In in Hy as [Hy _]. rewrite <- Ey. apply in_map, Hy.
Qed.

Lemma find_absent_names (n : ustring) (l : list (CustomModelConfig R)) :
  ~ In n (map cm_name l) -> find (fun m => ueqb (cm_name m) n) l = None.
Proof.
  induction l as [|x r IH]; intros H; simpl; [reflexivity|].
  destruct (ueqb (cm_name x) n) eqn:E.
  - exfalso. apply H. left. apply ueqb_true, E.
  - apply IH. intros Hin. apply H. right. exact Hin.
Qed.

Lemma length_filter_le {A} (p : A -> bool) (l : list A) :
  List.length (filter p l) <= List.length l.
Proof. induction l as [|x r IH]; simpl; [lia|destruct (p x); simpl; lia]. Qed.

Lemma length_filter_eqb {A} (p : A -> bool) (l : list A) :
  Nat.eqb (List.length (filter p l)) (List.length l) = forallb p l.
Proof.
  induction l as [|x r IH]; simpl; [reflexivity|].
  destruct (p x); simpl; [exact IH|].
  pose proof (length_filter_le p r). apply Nat.eqb_neq. lia.
Qed.

Lemma find_none_forallb {A} (f : A -> bool) (l : list A) :
  find f l = None <-> forallb (fun x => negb (f x)) l = true.
Proof.
  induction l as [|x r IH]; simpl; [split; reflexivity|].
  destruct (f x); simpl; [split; discriminate|exact IH].
Qed.

Lemma find_app_split {A} (f : A -> bool) (l1 l2 : list A) :
  find f (l1 ++ l2) = match find f l1 with Some x => Some x | None => find f l2 end.
Proof.
  induction l1 as [|x r IH]; simpl; [reflexivity|]. destruct (f x); [reflexivity|exact IH].
Qed.

Lemma get_after_upsert (name : ustring) (body : CustomModelConfig R)
    (l : list (CustomModelConfig R)) :
  cm_name body = name ->
  get_custom_model_handler (Some (retain_other name l ++ [body])) name = Some body /\
  (forall n, ueqb n name = false ->
     get_custom_model_handler (Some (retain_other name l ++ [body])) n =
     find (fun m => ueqb (cm_name m) n) l).
Proof.
  intros Hb. unfold get_custom_model_handler, load_custom_models. split.
  - rewrite find_app_split, find_retain_same. simpl. rewrite Hb, ueqb_refl. reflexivity.
  - intros n Hn. rewrite find_app_split, find_retain_other by exact Hn.
    destruct (find _ l) as [x|]; [reflexivity|]. simpl.
    replace (ueqb (cm_name body) n) with false; [reflexivity|].
    symmetry. apply ueqb_false. apply ueqb_false in Hn. congruence.
Qed.

End Lemmas.



Lemma custom_exec_nodup {R : Type} (file : option (list (CustomModelConfig R))) (o : CustomOp R) :
  NoDup (map cm_name (load_custom_models file)) ->
  NoDup (map cm_name (load_custom_models (custom_exec file o))).
Proof.
  intros H. destruct o as [w body|w name]; simpl.
  - unfold create_custom_model_handler.
    destruct (is_empty (trim (cm_name body))); [exact H|].
    destruct (is_empty (trim (cm_base_model body))); [exact H|].
    assert (Hreg : (if existsb (fun m => ueqb (cm_name m) (cm_name body)) (load_custom_models file)
                    then retain_other (cm_name body) (load_custom_models file)
                    else load_custom_models file) =
                   retain_other (cm_name body) (load_custom_models file)).
    { destruct (existsb _ _) eqn:E; [reflexivity|symmetry; apply retain_absent, E]. }
    rewrite Hreg. destruct w; simpl; [|exact H|constructor].
    rewrite map_app. simpl. apply NoDup_app.
    + apply nodup_retain, H.
    + repeat constructor. intros [].
    + intros x Hx [<-|[]]. apply (names_retain _ _ Hx).
  - unfold delete_custom_model_handler.
    destruct (Nat.eqb _ _); [exact H|].
    destruct w; simpl; [apply nodup_retain, H|exact H|constructor].
Qed.

(** X13.  Entry names stay unique: starting from a file whose entries have
    distinct names (or no file), any sequence of create and delete requests,
    whether their writes succeed or fail, leaves a file whose entries have
    distinct names, so a GET by name has one answer. *)
Theorem custom_names_unique {R : Type} (file : option (list (CustomModelConfig R)))
    (ops : list (CustomOp R)) :
  NoDup (map cm_name (load_custom_models file)) ->
  NoDup (map cm_name (load_custom_models (fold_left custom_exec ops file))).
Proof.
  revert file. induction ops as [|o r IH]; intros file H; simpl; [exact H|].
  apply IH, custom_exec_nodup, H.
Qed.

End CustomModelProofs.

(* ------------------------------------------------------------------------ *)
(** ** Locating a model file and registering a pulled model *)

Module ModelFileProofs.
Import Catalog ModelFiles OrderProofs.

Lemma path_eqb_true (p q : Path) : path_eqb p q = true <-> p = q.
Proof.
  revert q; induction p as [|x r IH]; intros [|y s]; unfold path_eqb; simpl;
    try (split; congruence).
  specialize (IH s). unfold path_eqb in IH.
  rewrite !andb_true_iff in *. rewrite String.eqb_eq. split.
  - intros [Hl [Hxy Hf]]. f_equal; [exact Hxy|]. apply IH. split; assumption.
  - intros E. injection E as -> ->. destruct (proj2 IH eq_refl) as [Hl Hf].
    split; [exact Hl|split; [reflexivity|exact Hf]].
Qed.

Lemma find_some_in {A} (f : A -> bool) (l : list A) (x : A) :
  In x l -> f x = true -> exists y, find f l = Some y.
Proof.
  intros Hin Hf. destruct (find f l) as [y|] eqn:E; [exists y; reflexivity|].
  rewrite (find_none f l E x Hin) in Hf. discriminate.
Qed.

Lemma kind_of_in (fs : FS) (e : Path * Kind) :
  In e fs -> exists k, kind_of fs (fst e) = Some k.
Proof.
  intros Hin. unfold kind_of.
  destruct (find_some_in (fun e' => path_eqb (fst e') (fst e)) fs e Hin) as [y Hy];
    [apply path_eqb_true; reflexivity|].
  rewrite Hy. exists (snd y). reflexivity.
Qed.

(** The last component of a path, resolved in the directory [q]. *)
Lemma resolve_one (fs : FS) (q : Path) (x : string) (k : Kind) :
  (String.eqb x "" || String.eqb x "." || String.eqb x "..") = false ->
  kind_of fs (q ++ [x]) = Some k ->
  resolve_from fs q [x] = Some (q ++ [x]).
Proof.
  intros Hx Hk. apply orb_false_iff in Hx as [Hx H3]. apply orb_false_iff in Hx as [H1 H2].
  cbn [resolve_from]. rewrite H1, H2, H3, Hk. reflexivity.
Qed.

Lemma resolve_snoc (fs : FS) (raw acc q : Path) (x : string) (k : Kind) :
  resolve_from fs acc raw = Some q ->
  (q = [] \/ kind_of fs q = Some Dir) ->
  (String.eqb x "" || String.eqb x "." || String.eqb x "..") = false ->
  kind_of fs (q ++ [x]) = Some k ->
  resolve_from fs acc (raw ++ [x]) = Some (q ++ [x]).
Proof.
  intros Hr Hq Hx Hk. revert acc Hr.
  induction raw as [|c r IH]; intros acc Hr.
  - cbn [resolve_from] in Hr. injection Hr as <-. apply (resolve_one fs acc x k Hx Hk).
  - cbn [resolve_from app] in Hr |- *.
    destruct (if String.eqb c "" || String.eqb c "." then Some acc
              else if String.eqb c ".." then Some (removelast acc)
              else match kind_of fs (acc ++ [c]) with
                   | Some _ => Some (acc ++ [c])
                   | None => None
                   end) as [acc'|]; [|discriminate].
    destruct r as [|c' r'].
    + injection Hr as <-. cbn [app].
      destruct acc' as [|a a'].
      * apply (resolve_one fs [] x k Hx Hk).
      * destruct Hq as [Hq|Hq]; [discriminate|]. rewrite Hq.
        apply (resolve_one fs (a :: a') x k Hx Hk).
    + cbn [app] in IH |- *.
      destruct acc' as [|a a']; [apply IH, Hr|].
      destruct (kind_of fs (a :: a')) as [[|]|]; [discriminate| |discriminate].
      apply IH, Hr.
Qed.

Lemma under_child (p e : Path) :
  under p e = true -> List.length e = S (List.length p) -> e = p ++ [last e ""].
Proof.
  unfold under. intros H Hl. apply andb_true_iff in H as [_ H].
  apply path_eqb_true in H.
  rewrite <- (firstn_skipn (List.length p) e) at 1. rewrite H.
  assert (Hs : List.length (skipn (List.length p) e) = 1) by (rewrite length_skipn; lia).
  destruct (skipn (List.length p) e) as [|y [|z t]] eqn:E; try (simpl in Hs; lia).
  f_equal. f_equal.
  rewrite <- (firstn_skipn (List.length p) e), H, E. symmetry. apply last_last.
Qed.

Lemma is_dir_canon (fs : FS) (raw : Path) :
  is_dir fs raw = true ->
  exists p, canonicalize fs raw = Some p /\ (p = [] \/ kind_of fs p = Some Dir).
Proof.
  unfold is_dir. destruct (canonicalize fs raw) as [[|a p]|]; intros H; try discriminate.
  - exists []. split; [reflexivity|left; reflexivity].
  - exists (a :: p). split; [reflexivity|right].
    destruct (kind_of fs (a :: p)) as [[|]|]; congruence.
Qed.

(** An entry [read_dir] lists is a child of the canonical directory. *)
Lemma read_dir_child (fs : FS) (raw : Path) (entries : list string) (x : string) :
  read_dir fs raw = Some entries -> In x entries ->
  exists p k, canonicalize fs raw = Some p /\ (p = [] \/ kind_of fs p = Some Dir) /\
              kind_of fs (p ++ [x]) = Some k.
Proof.
  unfold read_dir. destruct (is_dir fs raw) eqn:Ed; [|discriminate].
  destruct (is_dir_canon fs raw Ed) as [p [Hc Hp]]. rewrite Hc.
  intros E Hin. injection E as <-.
  apply in_flat_map in Hin as [e [He Hx]].
  destruct (Nat.eqb _ _ && under p (fst e)) eqn:Ec; [|destruct Hx].
  destruct Hx as [<-|[]]. apply andb_true_iff in Ec as [El Eu].
  apply Nat.eqb_eq in El.
  destruct (kind_of_in fs e He) as [k Hk].
  destruct e as [pe ke]. cbn [fst] in *.
  rewrite (under_child p pe Eu El) in Hk.
  exists p, k. split; [reflexivity|split; [exact Hp|exact Hk]].
Qed.

Lemma gguf_normal (x : string) :
  is_gguf x = true -> (String.eqb x "" || String.eqb x "." || String.eqb x "..") = false.
Proof.
  intros H. destruct (String.eqb_spec x ""); [subst; discriminate|].
  destruct (String.eqb_spec x "."); [subst; discriminate|].
  destruct (String.eqb_spec x ".."); [subst; discriminate|]. reflexivity.
Qed.

Lemma insert_name_perm (x : string) (l : list string) : Permutation (insert_name x l) (x :: l).
Proof.
  induction l as [|y r IH]; simpl; [reflexivity|].
  destruct (String.leb x y); [reflexivity|].
  rewrite IH. apply perm_swap.
Qed.

Lemma sort_names_perm (l : list string) : Permutation (sort_names l) l.
Proof.
  induction l as [|x r IH]; simpl; [reflexivity|]. rewrite insert_name_perm, IH. reflexivity.
Qed.

Lemma insert_name_sorted (x : string) (l : list string) :
  StronglySorted (fun a b => String.leb a b = true) l ->
  StronglySorted (fun a b => String.leb a b = true) (insert_name x l).
Proof.
  induction l as [|y r IH]; intros H; simpl; [repeat constructor|].
  apply StronglySorted_inv in H as [Hr Hf].
  destruct (String.leb x y) eqn:Exy.
  - constructor; [constructor; assumption|].
    constructor; [exact Exy|]. rewrite Forall_forall in *.
    intros z Hz. apply (leb_trans x y z Exy (Hf z Hz)).
  - constructor; [apply IH, Hr|]. rewrite Forall_forall in *.
    intros z Hz. apply (Permutation_in _ (insert_name_perm x r)) in Hz as [<-|Hz];
      [|apply Hf, Hz].
    apply leb_gt. unfold String.leb in Exy. destruct (String.compare x y); congruence.
Qed.

Lemma sort_names_sorted (l : list string) :
  StronglySorted (fun a b => String.leb a b = true) (sort_names l).
Proof. induction l as [|x r IH]; simpl; [constructor|]. apply insert_name_sorted, IH. Qed.

Lemma sorted_find_least (f : string -> bool) (l : list string) (x : string) :
  StronglySorted (fun a b => String.leb a b = true) l -> find f l = Some x ->
  forall z, In z l -> f z = true -> String.leb x z = true.
Proof.
  induction l as [|y r IH]; intros H Hf z Hz Hfz; [destruct Hz|].
  apply StronglySorted_inv in H as [Hr HF]. rewrite Forall_forall in HF. simpl in Hf.
  destruct (f y) eqn:Ey.
  - injection Hf as <-. destruct Hz as [<-|Hz]; [apply leb_refl|apply HF, Hz].
  - destruct Hz as [<-|Hz]; [congruence|]. apply (IH Hr Hf z Hz Hfz).
Qed.

(** X14.  [find_model_file] only returns paths that exist: the model name
    as a path when it exists and ends in [.gguf], a [.gguf] file listed in
    [storage_dir/name], or [storage_dir/name.gguf] when it exists. *)
Theorem find_model_file_exists (fs : FS) (cwd storage : Path) (name : string) (p : Path) :
  find_model_file fs cwd storage name = Some p ->
  exists_path fs p = true /\
  ((p = parse_path cwd name /\ has_gguf_ext (split_slash name) = true) \/
   (exists x entries, p = join storage name ++ [x] /\
      read_dir fs (join storage name) = Some entries /\ In x entries /\ is_gguf x = true) \/
   p = join storage (String.append name ".gguf")).
Proof.
  unfold find_model_file.
  destruct (exists_path fs (parse_path cwd name) && has_gguf_ext (split_slash name)) eqn:E.
  { intros H. injection H as <-. apply andb_true_iff in E as [E1 E2].
    split; [exact E1|left; split; [reflexivity|exact E2]]. }
  unfold pick_in_dir.
  set (fallback := let direct := join storage (name ++ ".gguf") in
                   if exists_path fs direct then Some direct else None).
  assert (Hfb : fallback = Some p ->
                exists_path fs p = true /\ p = join storage (String.append name ".gguf")).
  { unfold fallback. cbv zeta.
    destruct (exists_path fs (join storage (name ++ ".gguf"))) eqn:Ee; [|discriminate].
    intros H. injection H as <-. split; [exact Ee|reflexivity]. }
  assert (Hfb' : fallback = Some p ->
                 exists_path fs p = true /\
                 ((p = parse_path cwd name /\ has_gguf_ext (split_slash name) = true) \/
                  (exists x entries, p = join storage name ++ [x] /\
                     read_dir fs (join storage name) = Some entries /\ In x entries /\
                     is_gguf x = true) \/
                  p = join storage (String.append name ".gguf"))).
  { intros H. destruct (Hfb H) as [A B]. split; [exact A|right; right; exact B]. }
  destruct (is_dir fs (join storage name)) eqn:Ed; [|exact Hfb'].
  destruct (read_dir fs (join storage name)) as [entries|] eqn:Er; [|discriminate].
  assert (Hx : forall x, In x (sort_names (filter is_gguf entries)) ->
                 exists_path fs (join storage name ++ [x]) = true /\
                 In x entries /\ is_gguf x = true).
  { intros x Hin. apply (Permutation_in _ (sort_names_perm _)) in Hin.
    apply filter_In in Hin as [Hin Hg].
    destruct (read_dir_child fs _ entries x Er Hin) as [q [k [Hc [Hq Hk]]]].
    split; [|split; [exact Hin|exact Hg]].
    unfold exists_path, canonicalize.
    rewrite (resolve_snoc fs _ [] q x k Hc Hq (gguf_normal x Hg) Hk). reflexivity. }
  assert (Hpick : forall x, In x (sort_names (filter is_gguf entries)) ->
                    Some (join storage name ++ [x]) = Some p ->
                    exists_path fs p = true /\
                    ((p = parse_path cwd name /\ has_gguf_ext (split_slash name) = true) \/
                     (exists x entries, p = join storage name ++ [x] /\
                        read_dir fs (join storage name) = Some entries /\ In x entries /\
                        is_gguf x = true) \/
                     p = join storage (String.append name ".gguf"))).
  { intros x Hin H. injection H as <-. destruct (Hx x Hin) as [A [B C]].
    split; [exact A|right; left; exists x, entries; split; [reflexivity|]].
    split; [exact Er|split; [exact B|exact C]]. }
  destruct (find (contains "-00001-of-") (sort_names (filter is_gguf entries))) as [x|] eqn:Ef.
  - rewrite <- Er. apply (Hpick x), (find_some _ _ Ef).
  - destruct (sort_names (filter is_gguf entries)) as [|x r] eqn:Es; [exact Hfb'|].
    rewrite <- Er. apply (Hpick x). left. reflexivity.
Qed.

(** X15.  When the model name is not itself an existing [.gguf] path and
    [storage_dir/name] can be listed, [find_model_file] returns, among the
    [.gguf] files listed there, the least by byte order whose name contains
    [-00001-of-] (the first shard); when none does, the least [.gguf]
    file; when there is no [.gguf] file, [storage_dir/name.gguf] if it
    exists and an error otherwise. *)
Theorem find_model_file_choice (fs : FS) (cwd storage : Path) (name : string)
    (entries : list string) :
  (exists_path fs (parse_path cwd name) && has_gguf_ext (split_slash name)) = false ->
  read_dir fs (join storage name) = Some entries ->
  let ggufs := filter is_gguf entries in
  let r := find_model_file fs cwd storage name in
  ((exists y, In y ggufs /\ contains "-00001-of-" y = true) ->
     exists x, r = Some (join storage name ++ [x]) /\ In x ggufs /\
       contains "-00001-of-" x = true /\
       (forall z, In z ggufs -> contains "-00001-of-" z = true -> String.leb x z = true)) /\
  ((forall y, In y ggufs -> contains "-00001-of-" y = false) -> ggufs <> [] ->
     exists x, r = Some (join storage name ++ [x]) /\ In x ggufs /\
       (forall z, In z ggufs -> String.leb x z = true)) /\
  (ggufs = [] ->
     r = if exists_path fs (join storage (String.append name ".gguf"))
         then Some (join storage (String.append name ".gguf")) else None).
Proof.
  intros Hd Hr. cbv zeta. unfold find_model_file. rewrite Hd. unfold pick_in_dir.
  assert (Ed : is_dir fs (join storage name) = true)
    by (unfold read_dir in Hr; destruct (is_dir fs (join storage name)); congruence).
  rewrite Ed, Hr.
  pose proof (sort_names_perm (filter is_gguf entries)) as Hp.
  pose proof (sort_names_sorted (filter is_gguf entries)) as Hs.
  destruct (find (contains "-00001-of-") (sort_names (filter is_gguf entries))) as [x|] eqn:Ef.
  - destruct (find_some _ _ Ef) as [Hin Hc].
    split; [|split].
    + intros _. exists x. split; [reflexivity|].
      split; [apply (Permutation_in _ Hp), Hin|split; [exact Hc|]].
      intros z Hz Hcz. apply (sorted_find_least _ _ x Hs Ef z); [|exact Hcz].
      apply (Permutation_in _ (Permutation_sym Hp)), Hz.
    + intros Hno _. exfalso. rewrite (Hno x (Permutation_in _ Hp Hin)) in Hc. discriminate.
    + intros Hnil. rewrite Hnil in Ef. cbn in Ef. discriminate.
  - split; [|split].
    + intros [y [Hy Hc]]. exfalso.
      apply (Permutation_in _ (Permutation_sym Hp)) in Hy.
      rewrite (find_none _ _ Ef y Hy) in Hc. discriminate.
    + intros _ Hne.
      destruct (sort_names (filter is_gguf entries)) as [|x r] eqn:Es.
      * exfalso. apply Hne. apply Permutation_nil, Hp.
      * exists x. split; [reflexivity|].
        split; [apply (Permutation_in _ Hp); left; reflexivity|].
        intros z Hz. apply (Permutation_in _ (Permutation_sym Hp)) in Hz.
        apply StronglySorted_inv in Hs as [_ HF]. rewrite Forall_forall in HF.
        destruct Hz as [<-|Hz]; [apply leb_refl|apply HF, Hz].
    + intros Hnil. rewrite Hnil. reflexivity.
Qed.

Lemma first_occurrences_reaches (l1 l2 : list ModelInfo) (mi : ModelInfo) (seen : list string) :
  (forall x, In x l1 -> mi_name x <> mi_name mi) -> ~ In (mi_name mi) seen ->
  In mi (first_occurrences seen (l1 ++ mi :: l2)).
Proof.
  revert seen; induction l1 as [|x r IH]; intros seen Hl Hs; cbn [app first_occurrences].
  - destruct (mem (mi_name mi) seen) eqn:Em.
    + apply CatalogProofs.mem_In in Em. contradiction.
    + left. reflexivity.
  - destruct (mem (mi_name x) seen).
    + apply IH; [intros y Hy; apply Hl; right; exact Hy|exact Hs].
    + right. apply IH; [intros y Hy; apply Hl; right; exact Hy|].
      intros [E|E]; [apply (Hl x (or_introl eq_refl)), E|contradiction].
Qed.

Lemma nodup_map_inj {A B} (f : A -> B) (l : list A) (a b : A) :
  NoDup (map f l) -> In a l -> In b l -> f a = f b -> a = b.
Proof.
  induction l as [|x r IH]; intros Hn Ha Hb Hf; [destruct Ha|].
  inversion Hn as [|? ? Hx Hr]; subst.
  destruct Ha as [<-|Ha], Hb as [<-|Hb]; try reflexivity.
  - exfalso. apply Hx. rewrite Hf. apply in_map, Hb.
  - exfalso. apply Hx. rewrite <- Hf. apply in_map, Ha.
  - apply IH; assumption.
Qed.

(** X16.  After a pull of [name] whose registry save succeeds, the model
    list of GET /api/models shows [name] exactly once, with the path of the
    downloaded file [storage_dir/name/filename] and the pull's source
    ("pulled" without one), provided [name] is not declared in the config
    (whose names are the keys of a map). *)
Theorem pulled_model_listed (cfg : Config) (d : Disk) (name repo_id filename : string)
    (source : option string) :
  NoDup (map fst (models cfg)) ->
  ~ In name (map fst (models cfg)) ->
  registry_save d = RegSaved ->
  let mi := mkInfo name (render (join (join (storage_dir cfg) name) filename))
                   (match source with Some s => s | None => "pulled" end) in
  let l := models_handler cfg (register_pulled cfg d name repo_id filename source) in
  In mi l /\ (forall mj, In mj l -> mi_name mj = name -> mj = mi).
Proof.
  intros Hnd Hcfg Hw. cbv zeta.
  unfold register_pulled. rewrite Hw.
  rewrite (CatalogProofs.models_handler_fold _ _ Hnd). cbn [registry fs].
  rewrite CatalogProofs.fold_push_unseen. cbn [fst CatalogProofs.acc_of app map].
  set (mi := mkInfo name (render (join (join (storage_dir cfg) name) filename))
                    (match source with Some s => s | None => "pulled" end)).
  set (L := map CatalogProofs.config_info (models cfg)
            ++ map registry_info (filter (fun m => negb (String.eqb (e_name m) name)) (registry d)
                                  ++ [mkEntry name (render (join (join (storage_dir cfg) name) filename))
                                        (Some repo_id) (Some filename)
                                        (match source with Some s => Some s | None => Some "pulled" end)])
            ++ discovered (fs d) (storage_dir cfg)).
  assert (HL : L = (map CatalogProofs.config_info (models cfg)
                    ++ map registry_info (filter (fun m => negb (String.eqb (e_name m) name)) (registry d)))
                   ++ mi :: discovered (fs d) (storage_dir cfg)).
  { unfold L. rewrite map_app, <- !app_assoc. cbn. unfold mi, registry_info. cbn.
    destruct source; reflexivity. }
  assert (Hin : In mi (first_occurrences [] L)).
  { rewrite HL. apply first_occurrences_reaches; [|intros []].
    intros x Hx E. apply in_app_or in Hx as [Hx|Hx].
    - apply in_map_iff in Hx as [kv [<- Hkv]]. apply Hcfg.
      cbn in E. rewrite <- E. apply in_map, Hkv.
    - apply in_map_iff in Hx as [e [<- He]]. apply filter_In in He as [_ He].
      cbn in E. rewrite E in He. cbn in He. rewrite String.eqb_refl in He. discriminate. }
  split; [exact Hin|].
  intros mj Hj Ej. destruct (CatalogProofs.first_occurrences_fresh L []) as [Hn _].
  apply (nodup_map_inj mi_name _ mj mi Hn Hj Hin). rewrite Ej. reflexivity.
Qed.

End ModelFileProofs.

(* ------------------------------------------------------------------------ *)
(** ** The store, memory, custom-model and model-file properties on concrete inputs *)

Module ExtraExamples.
Import SessionStore SessionQueries Server SessionApi Catalog ModelFiles CustomModels
       Fixtures ExtraFixtures.
Local Open Scope string_scope.

(** X5 on a table holding one memory from January 2024. *)
Lemma recorded_memory_first_witness :
  let '(mt', m) := record_memory mem_one "note" "second" None None "2024-05-01T10:00:00Z" in
  hd_error (get_recent_memories mt' 10) = Some m /\
  hd_error (get_memories_by_type mt' "note" 10) = Some m.
Proof.
  apply (MemoryProofs.recorded_memory_first mem_one "note" "second" None None
           "2024-05-01T10:00:00Z" 10).
  - intros e He. vm_compute in He. destruct He as [<-|[]]. vm_compute. reflexivity.
  - lia.
Defined.

(** X6 on the empty store: the new session [uuid-1] becomes current. *)
Lemma create_then_get_witness :
  get_session (store (state_with "b" None)) (new_uuid env_ok) = None /\
  (let '(r, st', mt') := create_session_handler env_ok (state_with "b" None) empty_memories
                           (Some "b") (Some "Chat") in
   current_session st' = Some "uuid-1").
Proof.
  assert (Hs : get_session (store (state_with "b" None)) (new_uuid env_ok) = None)
    by reflexivity.
  assert (Hm : ~ In (new_uuid env_ok) (map m_session_id (messages (store (state_with "b" None)))))
    by (simpl; tauto).
  pose proof (MemoryProofs.create_then_get env_ok (state_with "b" None) empty_memories
                (Some "b") (Some "Chat") Hs Hm) as H.
  split; [exact Hs|].
  destruct (create_session_handler env_ok (state_with "b" None) empty_memories
              (Some "b") (Some "Chat")) as [[r st'] mt'].
  exact (proj1 H).
Defined.

(** X7 on a store with one session and one message. *)
Lemma store_keys_unique_witness :
  reachable store_two /\ NoDup (map m_id (messages store_two)).
Proof.
  assert (H : reachable store_two).
  { apply reach_step; [apply reach_step; [apply reach_init | simpl; tauto] | exact I]. }
  split; [exact H|exact (proj1 (proj2 (MemoryProofs.store_keys_unique store_two H)))].
Defined.

(** X8: after clearing everything and creating a new session, a message
    added to it still gets a larger id. *)
Lemma message_ids_never_reused_witness :
  In msg_one (messages store_two) /\
  exists st' m',
    add_message (fold_left exec [OpClearAll; OpCreate "s2" None None "t2"] store_two)
                "s2" "user" "again" None "t3" = Some (st', m') /\
    (m_id msg_one < m_id m')%Z.
Proof.
  assert (H : reachable store_two).
  { apply reach_step; [apply reach_step; [apply reach_init | simpl; tauto] | exact I]. }
  assert (Hin : In msg_one (messages store_two)) by (vm_compute; left; reflexivity).
  split; [exact Hin|].
  destruct (add_message (fold_left exec [OpClearAll; OpCreate "s2" None None "t2"] store_two)
                        "s2" "user" "again" None "t3") as [[st' m']|] eqn:E;
    [|vm_compute in E; discriminate E].
  exists st', m'. split; [reflexivity|].
  exact (MemoryProofs.message_ids_never_reused store_two
           [OpClearAll; OpCreate "s2" None None "t2"] msg_one
           "s2" "user" "again" None "t3" st' m' H Hin E).
Defined.

(** X13 on a two-entry file, an upsert of [a] and a delete of [b]. *)
Lemma custom_names_unique_witness :
  NoDup (map cm_name (load_custom_models custom_two)) /\
  NoDup (map cm_name (load_custom_models
    (fold_left custom_exec [CCreate Written (mkCustom [97%N] [110%N] tt);
                            CDelete Written [98%N]] custom_two))).
Proof.
  assert (H : NoDup (map cm_name (load_custom_models custom_two))).
  { vm_compute. constructor; [intros [E|[]]; discriminate|constructor; [intros []|constructor]]. }
  split; [exact H|exact (CustomModelProofs.custom_names_unique custom_two _ H)].
Defined.

(** X14: the first shard of [b] is found, and it exists. *)
Lemma find_model_file_exists_witness :
  find_model_file fs_shards ["w"] ["s"] "b" = Some ["s"; "b"; "b-00001-of-00002.gguf"] /\
  exists_path fs_shards ["s"; "b"; "b-00001-of-00002.gguf"] = true.
Proof.
  assert (H : find_model_file fs_shards ["w"] ["s"] "b" =
              Some ["s"; "b"; "b-00001-of-00002.gguf"]) by (vm_compute; reflexivity).
  split; [exact H|exact (proj1 (ModelFileProofs.find_model_file_exists _ _ _ _ _ H))].
Defined.

(** X15: listed after the second shard, the first shard is still chosen. *)
Lemma find_model_file_choice_witness :
  read_dir fs_shards (join ["s"] "b") =
    Some ["b-00002-of-00002.gguf"; "b-00001-of-00002.gguf"; "README"] /\
  exists x, find_model_file fs_shards ["w"] ["s"] "b" = Some (join ["s"] "b" ++ [x])%list /\
            contains "-00001-of-" x = true.
Proof.
  assert (Hd : (exists_path fs_shards (parse_path ["w"] "b")
                && has_gguf_ext (split_slash "b")) = false) by (vm_compute; reflexivity).
  assert (Hr : read_dir fs_shards (join ["s"] "b") =
               Some ["b-00002-of-00002.gguf"; "b-00001-of-00002.gguf"; "README"])
    by (vm_compute; reflexivity).
  split; [exact Hr|].
  pose proof (ModelFileProofs.find_model_file_choice fs_shards ["w"] ["s"] "b" _ Hd Hr) as H.
  cbv zeta in H. destruct H as [H1 _].
  destruct H1 as [x [Ex [_ [Cx _]]]].
  - exists "b-00001-of-00002.gguf". split; [vm_compute; right; left; reflexivity|].
    vm_compute. reflexivity.
  - exists x. split; [exact Ex|exact Cx].
Defined.

(** X16: pulling [b] over an older registry row of [b]. *)
Lemma pulled_model_listed_witness :
  In (mkInfo "b" "/s/b/b-00001-of-00002.gguf" "pulled")
     (models_handler cfg_shards
        (register_pulled cfg_shards disk_shards "b" "org/b-GGUF" "b-00001-of-00002.gguf" None)).
Proof.
  assert (Hn : NoDup (map fst (models cfg_shards)))
    by (vm_compute; constructor; [intros []|constructor]).
  assert (Hc : ~ In "b" (map fst (models cfg_shards)))
    by (vm_compute; intros [E|[]]; discriminate).
  pose proof (ModelFileProofs.pulled_model_listed cfg_shards disk_shards "b" "org/b-GGUF"
                "b-00001-of-00002.gguf" None Hn Hc eq_refl) as H.
  exact (proj1 H).
Defined.

End ExtraExamples.
